(** * Pattern Colorization: a shallow embedding of the pattern store, the match
    finder and the navigator, with proofs of their specified properties.

    Sources embedded:
    - [src/src/services/patternManager.ts]: [PatternManager] (store, CRUD,
      import, colour slots) and [DecorationManager.findPatternRanges].
    - the [PatternCommands] class appended to [src/README.md] (the version that
      the extension entry point uses): command registration, navigation. *)

From Stdlib Require Import Strings.String Strings.Ascii.
From Stdlib Require Import List ZArith Lia Bool Arith Permutation Sorted.
Import ListNotations.
Open Scope Z_scope.

(** ** JS strings

    A JS string is a sequence of UTF-16 code units. Offsets into strings are
    non-negative integers, modelled as [nat]. *)

Definition jstr := list Z.

Definition jstr_eqb (a b : jstr) : bool :=
  if list_eq_dec Z.eq_dec a b then true else false.

(** ASCII string literals as code-unit lists (for examples). *)
Definition str (s : String.string) : jstr :=
  map (fun a => Z.of_nat (Ascii.nat_of_ascii a)) (String.list_ascii_of_string s).
Arguments str s%_string.

(** [String.prototype.toLowerCase], per code unit. This model covers the ASCII
    upper-case letters and U+0130 (LATIN CAPITAL LETTER I WITH DOT ABOVE), whose
    full lower-case mapping is the two code units U+0069 U+0307. Every other
    code unit is kept as it is; that differs from JS for other non-ASCII
    upper-case letters, and nothing proved below depends on those. *)
Definition lower_unit (c : Z) : list Z :=
  if (65 <=? c) && (c <=? 90) then [c + 32]
  else if c =? 304 then [105; 775]
  else [c].

Definition toLowerCase (s : jstr) : jstr := flat_map lower_unit s.

(** [String.prototype.trim]: strips WhiteSpace and LineTerminator code units
    at both ends. *)
Definition is_js_space (c : Z) : bool :=
  (c =? 9) || (c =? 10) || (c =? 11) || (c =? 12) || (c =? 13) || (c =? 32)
  || (c =? 160) || (c =? 5760) || ((8192 <=? c) && (c <=? 8202))
  || (c =? 8232) || (c =? 8233) || (c =? 8239) || (c =? 8287)
  || (c =? 12288) || (c =? 65279).

Fixpoint drop_spaces (s : jstr) : jstr :=
  match s with
  | [] => []
  | c :: s' => if is_js_space c then drop_spaces s' else s
  end.

Definition trim (s : jstr) : jstr := rev (drop_spaces (rev (drop_spaces s))).

(** [s.startsWith(p)] on lists: [p] is a prefix of [s]. *)
Fixpoint prefixb (p s : jstr) : bool :=
  match p, s with
  | [], _ => true
  | _ :: _, [] => false
  | a :: p', b :: s' => (a =? b) && prefixb p' s'
  end.

(** [s.indexOf(p, from)]: the search starts at [min(from, s.length)] and
    returns the first offset at which [p] occurs; with [p] empty that is the
    start offset itself. [None] plays the role of [-1]. *)
Fixpoint search_from (l p : jstr) (k : nat) : option nat :=
  if prefixb p l then Some k
  else match l with
       | [] => None
       | _ :: l' => search_from l' p (S k)
       end.

Definition indexOf (s p : jstr) (from : nat) : option nat :=
  let start := Nat.min from (length s) in
  search_from (skipn start s) p start.

(** [s[k]] for an in-range [k] (the default is never used where it matters). *)
Definition char_at (s : jstr) (k : nat) : Z := nth k s 0.

(** [DecorationManager.isWordCharacter]: [/\w/.test(char)], i.e. an ASCII
    letter, an ASCII digit or [_]. *)
Definition isWordCharacter (c : Z) : bool :=
  ((65 <=? c) && (c <=? 90)) || ((97 <=? c) && (c <=? 122))
  || ((48 <=? c) && (c <=? 57)) || (c =? 95).

Definition space : Z := 32.

(** [beforeChar] and [afterChar] of [findPatternRanges]. *)
Definition before_char (dt : jstr) (k : nat) : Z :=
  if (0 <? k)%nat then char_at dt (k - 1) else space.

Definition after_char (dt st : jstr) (k : nat) : Z :=
  if (k + length st <? length dt)%nat then char_at dt (k + length st) else space.

(** The [while (true)] loop of [findPatternRanges] over the normalised
    document [dt] and search text [st], run for at most [fuel] iterations: it
    yields the accepted offsets when the loop exits ([indexOf] returns -1),
    and [None] when it has not exited within [fuel] iterations. *)
Fixpoint scan (fuel : nat) (dt st : jstr) (wholeWord : bool) (index : nat)
  : option (list nat) :=
  match fuel with
  | O => None
  | S fuel' =>
      match indexOf dt st index with
      | None => Some []
      | Some found =>
          if wholeWord && (isWordCharacter (before_char dt found)
                           || isWordCharacter (after_char dt st found))
          then scan fuel' dt st wholeWord (found + 1)
          else option_map (cons found) (scan fuel' dt st wholeWord (found + 1))
      end
  end.

(** ** Host document positions

    [TextDocument.positionAt] of the editor host for a document whose lines end
    in ["\n"]: the offset is clamped to the text, the line is the number of
    line feeds before it and the character its distance from the last one. *)
Record position := mkPosition { line : nat; character : nat }.

Fixpoint pos_walk (s : jstr) (ln col : nat) : position :=
  match s with
  | [] => mkPosition ln col
  | c :: s' => if c =? 10 then pos_walk s' (S ln) 0 else pos_walk s' ln (S col)
  end.

Definition positionAt (doc : jstr) (offset : nat) : position :=
  pos_walk (firstn (Nat.min offset (length doc)) doc) 0 0.

Record range := mkRange { r_start : position; r_end : position }.

(** ** Data model ([src/src/models/pattern.ts]) *)

(** [colorIndex] and [createdAt] are JS numbers; the model gives them
    integer values. *)
Record Pattern := mkPattern {
  id : jstr;
  text : jstr;
  colorIndex : Z;
  enabled : bool;
  createdAt : Z;
  description : option jstr
}.

Record PatternConfig := mkConfig {
  caseSensitive : bool;
  wholeWord : bool;
  cfg_enabled : bool
}.

(** ** [DecorationManager.findPatternRanges] *)

Definition search_text (pattern : Pattern) (config : PatternConfig) : jstr :=
  if caseSensitive config then text pattern else toLowerCase (text pattern).

Definition document_text (doc : jstr) (config : PatternConfig) : jstr :=
  if caseSensitive config then doc else toLowerCase doc.

Definition range_at (doc : jstr) (len found : nat) : range :=
  mkRange (positionAt doc found) (positionAt doc (found + len)).

Definition scan_fuel (dt : jstr) : nat := S (S (length dt)).

(** The ranges are built with the positions of the ORIGINAL document, from
    offsets found in the normalised one, as the source does. *)
Definition findPatternRanges (doc : jstr) (pattern : Pattern)
    (config : PatternConfig) : option (list range) :=
  let st := search_text pattern config in
  let dt := document_text doc config in
  option_map (map (range_at doc (length st)))
    (scan (scan_fuel dt) dt st (wholeWord config) 0).

Definition pat (t : String.string) : Pattern :=
  mkPattern (str "p") (str t) 0 true 0 None.
Arguments pat t%_string.

Definition cfg (cs ww : bool) : PatternConfig := mkConfig cs ww true.

(** ** The scan, characterised

    [occurs dt st k]: [st] occurs in [dt] at offset [k]. [accepted]: the
    whole-word filter of the loop lets the occurrence at [k] through. *)

Definition occurs (dt st : jstr) (k : nat) : bool := prefixb st (skipn k dt).

Definition accepted (dt st : jstr) (ww : bool) (k : nat) : bool :=
  negb (ww && (isWordCharacter (before_char dt k)
               || isWordCharacter (after_char dt st k))).

(** ** [PatternManager] ([src/src/services/patternManager.ts]) *)

(** [MAX_PATTERNS] and [COLOR_PALETTE.length] ([src/src/constants/colors.ts]). *)
Definition MAX_PATTERNS : nat := 8.
Definition COLOR_PALETTE_length : Z := 8.

Definition DEFAULT_CONFIG : PatternConfig := mkConfig false false true.

(** The manager's state: [patterns], [config] and [lastColorIndex]. *)
Record PatternManager := mkStore {
  patterns : list Pattern;
  config : PatternConfig;
  lastColorIndex : Z
}.

(** [getNextColorIndex]: the colour index and the new [lastColorIndex]. The
    loop runs over [0 .. COLOR_PALETTE.length - 1]; [%] is JS remainder. *)
Definition getNextColorIndex (ps : list Pattern) (last : Z) : Z * Z :=
  let usedIndices := map colorIndex ps in
  match find (fun i => negb (existsb (Z.eqb i) usedIndices))
              (map Z.of_nat (seq 0 (Z.to_nat COLOR_PALETTE_length))) with
  | Some i => (i, i)
  | None =>
      let l := Z.rem (last + 1) COLOR_PALETTE_length in (l, l)
  end.

Definition same_text_ci (t : jstr) (p : Pattern) : bool :=
  jstr_eqb (toLowerCase (text p)) (toLowerCase t).

(** [addPattern(text, description)]. The fresh id ([generateId()]) and the
    time ([Date.now()]) are supplied by the environment. *)
Definition addPattern (st : PatternManager) (newId : jstr) (now : Z)
    (t : jstr) (descr : option jstr) : PatternManager * option Pattern :=
  if (MAX_PATTERNS <=? length (patterns st))%nat then (st, None)
  else if jstr_eqb (trim t) [] then (st, None)
  else if existsb (same_text_ci t) (patterns st) then (st, None)
  else
    let (ci, last') := getNextColorIndex (patterns st) (lastColorIndex st) in
    let p := mkPattern newId (trim t) ci true now (option_map trim descr) in
    (mkStore (patterns st ++ [p]) (config st) last', Some p).

(** [patterns.findIndex(p => p.id === id)] followed by [splice(index, 1)]. *)
Fixpoint remove_first_id (x : jstr) (ps : list Pattern) : option (list Pattern) :=
  match ps with
  | [] => None
  | p :: ps' =>
      if jstr_eqb (id p) x then Some ps'
      else option_map (cons p) (remove_first_id x ps')
  end.

Definition removePattern (st : PatternManager) (x : jstr) : PatternManager * bool :=
  match remove_first_id x (patterns st) with
  | None => (st, false)
  | Some ps => (mkStore ps (config st) (lastColorIndex st), true)
  end.

(** [patterns.find(p => p.id === id)] followed by an in-place mutation of
    the object found (which is the list's element). *)
Fixpoint update_first_id (x : jstr) (f : Pattern -> Pattern) (ps : list Pattern)
  : option (list Pattern) :=
  match ps with
  | [] => None
  | p :: ps' =>
      if jstr_eqb (id p) x then Some (f p :: ps')
      else option_map (cons p) (update_first_id x f ps')
  end.

(** [Partial<Pattern>]: each field present or not. *)
Record PatternUpdate := mkUpdate {
  u_id : option jstr;
  u_text : option jstr;
  u_colorIndex : option Z;
  u_enabled : option bool;
  u_createdAt : option Z;
  u_description : option (option jstr)
}.

Definition override {A} (o : option A) (a : A) : A :=
  match o with Some v => v | None => a end.

(** [Object.assign(pattern, updates)]. *)
Definition assign (p : Pattern) (u : PatternUpdate) : Pattern :=
  mkPattern (override (u_id u) (id p)) (override (u_text u) (text p))
    (override (u_colorIndex u) (colorIndex p)) (override (u_enabled u) (enabled p))
    (override (u_createdAt u) (createdAt p))
    (override (u_description u) (description p)).

Definition updatePattern (st : PatternManager) (x : jstr) (u : PatternUpdate)
  : PatternManager * bool :=
  match update_first_id x (fun p => assign p u) (patterns st) with
  | None => (st, false)
  | Some ps => (mkStore ps (config st) (lastColorIndex st), true)
  end.

Definition togglePattern (st : PatternManager) (x : jstr) : PatternManager * bool :=
  match update_first_id x
          (fun p => mkPattern (id p) (text p) (colorIndex p) (negb (enabled p))
                      (createdAt p) (description p)) (patterns st) with
  | None => (st, false)
  | Some ps => (mkStore ps (config st) (lastColorIndex st), true)
  end.

Definition clearPatterns (st : PatternManager) : PatternManager :=
  match patterns st with
  | [] => st
  | _ => mkStore [] (config st) 0
  end.

Definition updateConfig (st : PatternManager) (c : PatternConfig) : PatternManager :=
  mkStore (patterns st) c (lastColorIndex st).

(** *** Import: the parsed JSON array. Numbers are the integers of the file;
    a file with a fractional number is outside the model. *)

Set Warnings "-register-all".
Inductive json :=
| JNull
| JBool (b : bool)
| JNum (z : Z)
| JStr (s : jstr)
| JArr (l : list json)
| JObj (fields : list (jstr * json)).

(** [JSON.parse] keeps the last of duplicated keys. *)
Fixpoint assoc_last (k : jstr) (fs : list (jstr * json)) : option json :=
  match fs with
  | [] => None
  | (k', v) :: fs' =>
      match assoc_last k fs' with
      | Some v' => Some v'
      | None => if jstr_eqb k k' then Some v else None
      end
  end.

(** [data.k]: [None] is the TypeError thrown on [null]; [Some None] is
    [undefined] (booleans, numbers, strings and arrays have none of the
    properties the import reads). *)
Definition get_prop (data : json) (k : jstr) : option (option json) :=
  match data with
  | JNull => None
  | JObj fs => Some (assoc_last k fs)
  | _ => Some None
  end.

(** The fields of an imported entry whose text passed the check. Values of
    JSON types other than the ones listed are coerced by JS in ways that this
    model does not track: they get the default here. *)
Definition import_pattern (data : json) (s : jstr) (freshId : jstr) (now : Z)
  : Pattern :=
  let pid := match get_prop data (str "id") with
             | Some (Some (JStr i)) => if jstr_eqb i [] then freshId else i
             | _ => freshId
             end in
  let ci := match get_prop data (str "colorIndex") with
            | Some (Some (JNum z)) =>
                Z.min (Z.max z 0) (COLOR_PALETTE_length - 1)
            | _ => 0
            end in
  let en := match get_prop data (str "enabled") with
            | Some (Some (JBool false)) => false
            | _ => true
            end in
  let ca := match get_prop data (str "createdAt") with
            | Some (Some (JNum z)) => if z =? 0 then now else z
            | _ => now
            end in
  let de := match get_prop data (str "description") with
            | Some (Some (JStr d)) => Some d
            | _ => None
            end in
  mkPattern pid (trim s) ci en ca de.

(** The [for (const data of patternsData)] loop: [None] when it throws.
    [fresh n] is the id [generateId()] would give the [n]-th entry. *)
Fixpoint import_loop (ds : list json) (n : nat) (fresh : nat -> jstr) (now : Z)
  : option (list Pattern) :=
  match ds with
  | [] => Some []
  | data :: ds' =>
      match get_prop data (str "text") with
      | None => None
      | Some (Some (JStr s)) =>
          if jstr_eqb s [] then import_loop ds' (S n) fresh now
          else option_map (cons (import_pattern data s (fresh n) now))
                 (import_loop ds' (S n) fresh now)
      | Some _ => import_loop ds' (S n) fresh now
      end
  end.

(** [importPatterns(patternsData)]: the boolean is [false] when the [catch]
    branch ran (error message, nothing changed). *)
Definition importPatterns (st : PatternManager) (ds : list json)
    (fresh : nat -> jstr) (now : Z) : PatternManager * bool :=
  match import_loop ds 0 fresh now with
  | None => (st, false)
  | Some valid =>
      (mkStore (firstn MAX_PATTERNS valid) (config st) (lastColorIndex st), true)
  end.

(** [loadState] from the three stored values ([None]: key absent). *)
Definition loadState (storedPatterns : option (list Pattern))
    (storedConfig : option PatternConfig) (storedLast : option Z) : PatternManager :=
  let ps := override storedPatterns [] in
  mkStore (firstn MAX_PATTERNS (filter (fun p => negb (jstr_eqb (text p) [])) ps))
    (override storedConfig DEFAULT_CONFIG) (override storedLast 0).

(** The mutating entry points of the manager. *)
Inductive store_op :=
| OpAdd (newId : jstr) (now : Z) (t : jstr) (descr : option jstr)
| OpRemove (x : jstr)
| OpUpdate (x : jstr) (u : PatternUpdate)
| OpToggle (x : jstr)
| OpClear
| OpUpdateConfig (c : PatternConfig)
| OpImport (ds : list json) (fresh : nat -> jstr) (now : Z).

Definition run_op (st : PatternManager) (o : store_op) : PatternManager :=
  match o with
  | OpAdd i n t d => fst (addPattern st i n t d)
  | OpRemove x => fst (removePattern st x)
  | OpUpdate x u => fst (updatePattern st x u)
  | OpToggle x => fst (togglePattern st x)
  | OpClear => clearPatterns st
  | OpUpdateConfig c => updateConfig st c
  | OpImport ds f n => fst (importPatterns st ds f n)
  end.

(** ** [PatternCommands] (the class appended to [src/README.md]) *)

(** [commandIds] of [registerCommands]. *)
Definition commandIds : list jstr :=
  map str
    [ "patternColorization.addPattern"; "patternColorization.deletePattern";
      "patternColorization.clearPatterns"; "patternColorization.refreshPatterns";
      "patternColorization.toggleHighlighting"; "patternColorization.togglePattern";
      "patternColorization.editPattern"; "patternColorization.addFromSelection";
      "patternColorization.importPatterns"; "patternColorization.exportPatterns";
      "patternColorization.showStats"; "patternColorization.jumpToNext";
      "patternColorization.jumpToPrevious";
      "patternColorization.jumpToNextSelectedPattern";
      "patternColorization.jumpToPreviousSelectedPattern";
      "patternColorization.changePatternColor" ]%string.

(** The handler methods the registered callbacks route to. *)
Inductive handler :=
| H_addPattern | H_deletePattern | H_clearPatterns | H_refreshPatterns
| H_toggleHighlighting | H_togglePattern | H_editPattern
| H_addPatternFromSelection | H_importPatterns | H_exportPatterns | H_showStats
| H_jumpToNextHighlight | H_jumpToPreviousHighlight
| H_jumpToNextSelectedPatternOccurrence
| H_jumpToPreviousSelectedPatternOccurrence | H_changePatternColor.

Definition handlers : list handler :=
  [ H_addPattern; H_deletePattern; H_clearPatterns; H_refreshPatterns;
    H_toggleHighlighting; H_togglePattern; H_editPattern;
    H_addPatternFromSelection; H_importPatterns; H_exportPatterns; H_showStats;
    H_jumpToNextHighlight; H_jumpToPreviousHighlight;
    H_jumpToNextSelectedPatternOccurrence;
    H_jumpToPreviousSelectedPatternOccurrence; H_changePatternColor ].

(** The [switch (commandId)] of the registered callback ([None]: the
    [default] branch). The cases are listed in the order of the source. *)
Definition route (commandId : jstr) : option handler :=
  option_map snd (find (fun ch => jstr_eqb (fst ch) commandId)
                       (combine commandIds handlers)).

(** The registered commands: each id with the handler its callback runs. *)
Definition registeredCommands : list (jstr * option handler) :=
  map (fun c => (c, route c)) commandIds.

(** *** Navigation *)

(** [Position.isAfter] and [Position.isBefore] of the editor host. *)
Definition isAfter (a b : position) : bool :=
  (line b <? line a)%nat || ((line a =? line b)%nat && (character b <? character a)%nat).

Definition isBefore (a b : position) : bool := isAfter b a.

(** The comparator of [getHighlightRanges]' sort, as a "strictly before"
    test on start positions. *)
Definition start_before (a b : range) : bool :=
  if negb (line (r_start a) =? line (r_start b))%nat
  then (line (r_start a) <? line (r_start b))%nat
  else (character (r_start a) <? character (r_start b))%nat.

(** [Array.prototype.sort] is stable: insertion sort with the comparator,
    where an element goes after every element it is not strictly before. *)
Fixpoint insert_range (x : range) (l : list range) : list range :=
  match l with
  | [] => [x]
  | y :: l' => if start_before x y then x :: y :: l' else y :: insert_range x l'
  end.

Definition sort_ranges (l : list range) : list range :=
  fold_left (fun acc x => insert_range x acc) l [].

(** [getHighlightRanges]: every enabled pattern's ranges, concatenated in
    pattern order, then sorted. [None] when some pattern's scan does not
    terminate. *)
Fixpoint collect_ranges (doc : jstr) (ps : list Pattern) (config : PatternConfig)
  : option (list range) :=
  match ps with
  | [] => Some []
  | p :: ps' =>
      match findPatternRanges doc p config, collect_ranges doc ps' config with
      | Some r, Some rs => Some (r ++ rs)
      | _, _ => None
      end
  end.

Definition getEnabledPatterns (st : PatternManager) : list Pattern :=
  filter enabled (patterns st).

Definition getHighlightRanges (st : PatternManager) (doc : jstr)
  : option (list range) :=
  if negb (cfg_enabled (config st)) then Some []
  else option_map sort_ranges
         (collect_ranges doc (getEnabledPatterns st) (config st)).

(** The target of [jumpToNextHighlight] for the candidate list [highlights]
    and the cursor [currentPosition]: [None] is the early return on an empty
    list. *)
Definition jumpToNextHighlight (highlights : list range)
    (currentPosition : position) : option range :=
  match highlights with
  | [] => None
  | first :: _ =>
      match find (fun h => isAfter (r_start h) currentPosition) highlights with
      | Some h => Some h
      | None => Some first
      end
  end.

(** Concrete documents of the scenarios. *)
Definition doc_U0130 : jstr := [304; 10] ++ str "ab".

Definition doc_e_acute_foo : jstr := [233] ++ str "foo".

Definition pat_lower (p : Pattern) : Pattern :=
  mkPattern (id p) (toLowerCase (text p)) (colorIndex p) (enabled p)
    (createdAt p) (description p).

Definition empty_store : PatternManager := mkStore [] DEFAULT_CONFIG 0.

Definition entry_text (t : String.string) : json :=
  JObj [(str "text", JStr (str t))].
Arguments entry_text t%_string.

Definition fresh_ids (n : nat) : jstr := str "pattern_" ++ [Z.of_nat n].

(** [start_le a b]: [a] does not start strictly after [b]. *)
Definition start_le (a b : range) : Prop := start_before b a = false.

Definition jump_command_ids : list (jstr * handler) :=
  [ (str "patternColorization.jumpToNext", H_jumpToNextHighlight);
    (str "patternColorization.jumpToPrevious", H_jumpToPreviousHighlight);
    (str "patternColorization.jumpToNextSelectedPattern",
     H_jumpToNextSelectedPatternOccurrence);
    (str "patternColorization.jumpToPreviousSelectedPattern",
     H_jumpToPreviousSelectedPatternOccurrence) ].

(** The [text] of an import entry when it is a non-empty string, and the
    texts that such entries carry, in order. *)
Definition text_field (data : json) : option jstr :=
  match data with
  | JObj fs =>
      match assoc_last (str "text") fs with
      | Some (JStr s) => if jstr_eqb s [] then None else Some s
      | _ => None
      end
  | _ => None
  end.

Definition imported_texts (ds : list json) : list jstr :=
  flat_map (fun d => match text_field d with Some s => [s] | None => [] end) ds.

Definition two_patterns_store : PatternManager :=
  mkStore [mkPattern (str "a") (str "TODO") 0 true 0 None;
           mkPattern (str "b") (str "FIXME") 1 true 0 None] DEFAULT_CONFIG 1.

Definition text_update (t : jstr) : PatternUpdate :=
  mkUpdate None (Some t) None None None None.

(** ** Further code of the store, the commands and the decorations *)

(** [exportPatterns()], as the file written by [JSON.stringify] is read back
    by [JSON.parse]: the [description] key is dropped when the field is
    [undefined]. *)
Definition export_entry (p : Pattern) : json :=
  JObj ([(str "id", JStr (id p)); (str "text", JStr (text p));
         (str "colorIndex", JNum (colorIndex p)); (str "enabled", JBool (enabled p));
         (str "createdAt", JNum (createdAt p))]
        ++ match description p with
           | Some d => [(str "description", JStr d)]
           | None => []
           end).

Definition exportPatterns (st : PatternManager) : list json :=
  map export_entry (patterns st).

(** The store [loadState()] builds from the three values [saveState()] wrote. *)
Definition reload (st : PatternManager) : PatternManager :=
  loadState (Some (patterns st)) (Some (config st)) (Some (lastColorIndex st)).

(** Patterns the next activation keeps: at most [MAX_PATTERNS], none with an
    empty text. *)
Definition well_formed (st : PatternManager) : Prop :=
  (length (patterns st) <= MAX_PATTERNS)%nat
  /\ Forall (fun p => text p <> []) (patterns st).

(** Every colour index names an entry of [COLOR_PALETTE]. *)
Definition colours_in_palette (st : PatternManager) : Prop :=
  Forall (fun p => 0 <= colorIndex p < COLOR_PALETTE_length) (patterns st).

(** No two pattern texts are equal after lower-casing. *)
Definition texts_unique_ci (ps : list Pattern) : Prop :=
  NoDup (map (fun p => toLowerCase (text p)) ps).

(** [PatternCommands.createPatternFromInline(text, description)]: the store
    after the call; every early [return] leaves it unchanged. *)
Definition createPatternFromInline (st : PatternManager) (newId : jstr) (now : Z)
    (t : jstr) (descr : option jstr) : PatternManager :=
  let ps := patterns st in
  if (MAX_PATTERNS <=? length ps)%nat then st
  else if jstr_eqb (trim t) [] then st
  else
    let trimmedText := trim t in
    if (length trimmedText <? 2)%nat then st
    else if existsb (same_text_ci trimmedText) ps then st
    else if (100 <? length trimmedText)%nat then st
    else fst (addPattern st newId now trimmedText descr).

(** The user's answer to the confirmation of [addPatternFromSelection]:
    dismissed or "Cancel" (or the description box cancelled), "Create
    Pattern", or "Create with Description" and the description typed. *)
Inductive selection_choice :=
| SelCancel
| SelCreate
| SelCreateWith (d : jstr).

(** [PatternCommands.addPatternFromSelection()] for a non-empty selection
    whose text is [selection]. [toggleExisting]: the answer "Toggle Pattern"
    to the warning shown for a duplicate. *)
Definition addPatternFromSelection (st : PatternManager) (selection : jstr)
    (toggleExisting : bool) (choice : selection_choice) (newId : jstr) (now : Z)
  : PatternManager :=
  let selectedText := trim selection in
  if jstr_eqb selectedText [] then st
  else if (100 <? length selectedText)%nat then st
  else match find (same_text_ci selectedText) (patterns st) with
       | Some existing =>
           if toggleExisting then fst (togglePattern st (id existing)) else st
       | None =>
           if (MAX_PATTERNS <=? length (patterns st))%nat then st
           else match choice with
                | SelCancel => st
                | SelCreate => fst (addPattern st newId now selectedText None)
                | SelCreateWith d =>
                    fst (addPattern st newId now selectedText (Some d))
                end
       end.

(** The messages of [validateInput] in [PatternTreeProvider.showInlineInputBox]. *)
Inductive input_error :=
| EmptyText
| TooShort
| AlreadyExists
| TooLong.

(** [validateInput(value)] for the pattern being edited ([patternId]) or for
    a new one ([None]: [p.id !== undefined] holds for every pattern). *)
Definition validateInput (ps : list Pattern) (patternId : option jstr) (value : jstr)
  : option input_error :=
  if jstr_eqb (trim value) [] then Some EmptyText
  else if (length (trim value) <? 2)%nat then Some TooShort
  else if existsb (fun p => match patternId with
                            | Some x => negb (jstr_eqb (id p) x)
                            | None => true
                            end && same_text_ci value p) ps
  then Some AlreadyExists
  else if (100 <? length value)%nat then Some TooLong
  else None.

(** [showInlineInputBox(patternId)] after the input box closed with
    [patternText] ([None]: cancelled); the box only closes with a value that
    [validateInput] accepts. *)
Definition showInlineInputBox (st : PatternManager) (patternId : option jstr)
    (patternText : option jstr) (newId : jstr) (now : Z) : PatternManager :=
  let existingPattern :=
    match patternId with
    | Some x => if jstr_eqb x [] then None
                else find (fun p => jstr_eqb (id p) x) (patterns st)
    | None => None
    end in
  match patternText with
  | None => st
  | Some v =>
      if jstr_eqb v [] then st
      else match existingPattern with
           | Some p => fst (updatePattern st (id p) (text_update (trim v)))
           | None => fst (addPattern st newId now (trim v) None)
           end
  end.

(** The target of [jumpToPreviousHighlight]: searching backwards, the first
    candidate whose end is strictly before the cursor, else the last
    candidate; [None] is the early return on an empty list. *)
Definition jumpToPreviousHighlight (highlights : list range)
    (currentPosition : position) : option range :=
  match highlights with
  | [] => None
  | first :: _ =>
      match find (fun h => isBefore (r_end h) currentPosition) (rev highlights) with
      | Some h => Some h
      | None => Some (last highlights first)
      end
  end.

(** [Range.contains(position)] of the editor host: the bounds are included. *)
Definition contains (r : range) (p : position) : bool :=
  negb (isBefore p (r_start r) || isBefore (r_end r) p).

(** The loop of [getPatternAtCursor] ([None]: a scan does not terminate). *)
Fixpoint pattern_at (doc : jstr) (config : PatternConfig) (pos : position)
    (ps : list Pattern) : option (option Pattern) :=
  match ps with
  | [] => Some None
  | p :: ps' =>
      match findPatternRanges doc p config with
      | None => None
      | Some ranges =>
          if existsb (fun r => contains r pos) ranges then Some (Some p)
          else pattern_at doc config pos ps'
      end
  end.

Definition getPatternAtCursor (st : PatternManager) (doc : jstr) (pos : position)
  : option (option Pattern) :=
  let ps := getEnabledPatterns st in
  if negb (cfg_enabled (config st)) || (length ps =? 0)%nat then Some None
  else pattern_at doc (config st) pos ps.

(** [navigateToNextPatternOccurrence(editor, pattern)]: the range revealed
    ([None] inside: no occurrence). *)
Definition navigateToNextPatternOccurrence (st : PatternManager) (doc : jstr)
    (pos : position) (p : Pattern) : option (option range) :=
  option_map (fun ranges => jumpToNextHighlight ranges pos)
    (findPatternRanges doc p (config st)).

(** [jumpToNextSelectedPatternOccurrence()]: the pattern under the cursor,
    else the first enabled pattern, else nothing. *)
Definition jumpToNextSelectedPatternOccurrence (st : PatternManager) (doc : jstr)
    (pos : position) : option (option range) :=
  match getPatternAtCursor st doc pos with
  | None => None
  | Some (Some p) => navigateToNextPatternOccurrence st doc pos p
  | Some None =>
      match getEnabledPatterns st with
      | [] => Some None
      | fallbackPattern :: _ =>
          navigateToNextPatternOccurrence st doc pos fallbackPattern
      end
  end.

(** The global [jumpToNextHighlight()] command: the range revealed. *)
Definition jumpToNext_command (st : PatternManager) (doc : jstr) (pos : position)
  : option (option range) :=
  option_map (fun hs => jumpToNextHighlight hs pos) (getHighlightRanges st doc).

(** *** [DecorationManager.updateEditor]

    A decoration option is represented by its range (the hover message is
    not modelled). [rangesByColor] is an association list from colour index
    to ranges, its keys in insertion order. *)
Fixpoint add_to_color (c : Z) (rs : list range) (groups : list (Z * list range))
  : list (Z * list range) :=
  match groups with
  | [] => [(c, rs)]
  | (c', rs') :: g =>
      if c' =? c then (c', rs' ++ rs) :: g else (c', rs') :: add_to_color c rs g
  end.

(** The [patterns.forEach] loop ([None]: a scan does not terminate). *)
Fixpoint group_ranges (doc : jstr) (config : PatternConfig) (ps : list Pattern)
    (acc : list (Z * list range)) : option (list (Z * list range)) :=
  match ps with
  | [] => Some acc
  | p :: ps' =>
      match findPatternRanges doc p config with
      | None => None
      | Some [] => group_ranges doc config ps' acc
      | Some ranges => group_ranges doc config ps' (add_to_color (colorIndex p) ranges acc)
      end
  end.

(** The decorations an editor shows, one list per decoration type (one type
    per palette entry). *)
Fixpoint set_nth {A} (n : nat) (x : A) (l : list A) : list A :=
  match n, l with
  | _, [] => []
  | O, _ :: l' => x :: l'
  | S n', y :: l' => y :: set_nth n' x l'
  end.

Definition cleared : list (list range) := repeat [] (Z.to_nat COLOR_PALETTE_length).

(** [editor.setDecorations(this.decorationTypes[index], options)] when the
    type exists ([0 <= index < 8]) and there are options. The key is
    [String(colorIndex)] and [index = parseInt(key)], which is the colour
    index itself for an integer of absolute value below [10^21] (larger ones
    print with an exponent). Each key occurs once, so the order of
    [Object.entries] does not change the result. *)
Definition apply_group (dec : list (list range)) (g : Z * list range)
  : list (list range) :=
  let (c, rs) := g in
  if (0 <=? c) && (c <? COLOR_PALETTE_length) && negb (match rs with [] => true | _ => false end)
  then set_nth (Z.to_nat c) rs dec else dec.

(** [updateEditor(editor)] with the manager's [isEnabled] flag: the
    decorations the editor shows afterwards (all types are cleared first). *)
Definition updateEditor (isEnabled : bool) (st : PatternManager) (doc : jstr)
  : option (list (list range)) :=
  if negb isEnabled then Some cleared
  else
    let ps := getEnabledPatterns st in
    if (length ps =? 0)%nat then Some cleared
    else option_map (fun g => fold_left apply_group g cleared)
           (group_ranges doc (config st) ps []).

(** *** [DecorationManager.getStats]

    The visible editors are given by their documents. [None]: a scan does
    not terminate. *)
Fixpoint count_ranges (doc : jstr) (config : PatternConfig) (ps : list Pattern)
  : option nat :=
  match ps with
  | [] => Some 0%nat
  | p :: ps' =>
      match findPatternRanges doc p config with
      | None => None
      | Some ranges => option_map (fun n => (length ranges + n)%nat) (count_ranges doc config ps')
      end
  end.

Fixpoint count_editors (docs : list jstr) (config : PatternConfig) (ps : list Pattern)
  : option nat :=
  match docs with
  | [] => Some 0%nat
  | doc :: docs' =>
      match count_ranges doc config ps with
      | None => None
      | Some n => option_map (fun m => (n + m)%nat) (count_editors docs' config ps)
      end
  end.

(** [(totalPatterns, enabledPatterns, activeDecorations)]. *)
Definition getStats (st : PatternManager) (visibleDocs : list jstr)
  : option (nat * nat * nat) :=
  option_map (fun a => (length (patterns st), length (getEnabledPatterns st), a))
    (count_editors visibleDocs (config st) (getEnabledPatterns st)).

(** *** [PatternTreeProvider.getPatternItems] *)

Record tree_item := mkItem {
  item_id : jstr;
  item_label : jstr;
  item_description : jstr;
  item_colorIndex : Z;
  item_enabled : bool;
  item_contextValue : jstr
}.

(** The [name] fields of [COLOR_PALETTE]. *)
Definition palette_names : list jstr :=
  [str "Soft Blue"; str "Soft Green"; str "Soft Yellow"; str "Soft Orange";
   str "Soft Purple"; str "Soft Pink"; str "Soft Teal"; str "Soft Gray"].

(** [COLOR_PALETTE[colorIndex].name]; [None]: the entry is [undefined] and
    reading [.name] throws a [TypeError]. *)
Definition palette_name (colorIndex : Z) : option jstr :=
  if 0 <=? colorIndex then nth_error palette_names (Z.to_nat colorIndex) else None.

(** The icons of [getColorIcon], as UTF-16 code units: the first seven are
    astral emoji (a surrogate pair each), the last is U+26AB. *)
Definition color_icons : list jstr :=
  [[55357; 56629]; [55357; 57314]; [55357; 57313]; [55357; 57312];
   [55357; 57315]; [55357; 56628]; [55357; 57318]; [9899]].

Definition getColorIcon (colorIndex : Z) : jstr :=
  match (if 0 <=? colorIndex then nth_error color_icons (Z.to_nat colorIndex) else None) with
  | Some icon => icon
  | None => [55357; 56629]
  end.

(** [parts.join(' ')]. *)
Fixpoint join_space (parts : list jstr) : jstr :=
  match parts with
  | [] => []
  | [x] => x
  | x :: xs => x ++ [32] ++ join_space xs
  end.

(** [createPatternDescription(pattern, color, isActive)], given [color.name]. *)
Definition createPatternDescription (p : Pattern) (colorName : jstr) (isActive : bool)
  : jstr :=
  let parts1 := [colorName] in
  let parts2 :=
    parts1 ++ match description p with
              | Some d =>
                  if (0 <? length d)%nat then
                    [[8226; 32] ++ (if (30 <? length d)%nat then firstn 27 d ++ str "..."
                                    else d)]
                  else []
              | None => []
              end in
  let parts3 :=
    if isActive && (length parts2 =? 1)%nat
    then parts2 ++ [str "(right-click to change color)"] else parts2 in
  let parts4 := if negb isActive then parts3 ++ [str "(inactive)"] else parts3 in
  join_space parts4.

(** [createTreeItem(pattern, globalEnabled)]; [None]: the [TypeError] of a
    colour index outside [COLOR_PALETTE]. *)
Definition createTreeItem (p : Pattern) (globalEnabled : bool) : option tree_item :=
  match palette_name (colorIndex p) with
  | None => None
  | Some colorName =>
      let isActive := globalEnabled && enabled p in
      let colorIcon := getColorIcon (colorIndex p) in
      let label := colorIcon ++ [32] ++ text p in
      let label := if (30 <? length label)%nat
                   then colorIcon ++ [32] ++ firstn 22 (text p) ++ str "..."
                   else label in
      Some (mkItem (id p) label (createPatternDescription p colorName isActive)
              (colorIndex p) (enabled p) (str "patternItem"))
  end.

(** The comparator of the tree's sort: enabled patterns first, then by
    [createdAt]. *)
Definition tree_cmp (a b : Pattern) : Z :=
  if negb (Bool.eqb (enabled a) (enabled b)) then (if enabled a then -1 else 1)
  else createdAt a - createdAt b.

(** [Array.prototype.sort] is stable and the comparator is a total preorder
    on [(enabled, createdAt)], so the result is that of a stable insertion
    sort: an element goes after every element the comparator does not put
    after it. *)
Fixpoint insert_tree (x : Pattern) (l : list Pattern) : list Pattern :=
  match l with
  | [] => [x]
  | y :: l' => if tree_cmp x y <? 0 then x :: y :: l' else y :: insert_tree x l'
  end.

Definition sort_tree (l : list Pattern) : list Pattern :=
  fold_left (fun acc x => insert_tree x acc) l [].

Definition inline_add_item : tree_item :=
  mkItem (str "inline-add") (str "$(edit) Type pattern text here...")
    (str "Press Enter to save, Escape to cancel") 0 true (str "inlineAddItem").

Definition color_picker_item (p : Pattern) : tree_item :=
  mkItem (str "color-picker-" ++ id p)
    (str "$(color-mode) Choose color for " ++ [34] ++ text p ++ [34])
    (str "Click to select a different color") (colorIndex p) true (str "colorPickerItem").

Definition empty_item : tree_item :=
  mkItem (str "empty") (str "No patterns defined")
    (str "Use the + button above to add your first pattern") 0 false (str "emptyItem").

(** [patterns.map(pattern => this.createTreeItem(pattern, config.enabled))]. *)
Fixpoint map_items (globalEnabled : bool) (ps : list Pattern) : option (list tree_item) :=
  match ps with
  | [] => Some []
  | p :: ps' =>
      match createTreeItem p globalEnabled with
      | None => None
      | Some it => option_map (cons it) (map_items globalEnabled ps')
      end
  end.

(** [getPatternItems()] with the provider's [isInlineAdding] and
    [colorSelectionPatternId] fields; [None]: a [TypeError] is thrown. *)
Definition getPatternItems (isInlineAdding : bool) (colorSelectionPatternId : option jstr)
    (st : PatternManager) : option (list tree_item) :=
  let ps := patterns st in
  let items :=
    (if isInlineAdding then [inline_add_item] else [])
    ++ match colorSelectionPatternId with
       | Some x =>
           if jstr_eqb x [] then []
           else match find (fun p => jstr_eqb (id p) x) ps with
                | Some p => [color_picker_item p]
                | None => []
                end
       | None => []
       end in
  if (length ps =? 0)%nat && negb isInlineAdding then Some [empty_item]
  else option_map (fun patternItems => items ++ patternItems)
         (map_items (cfg_enabled (config st)) (sort_tree ps)).

(** The order the tree promises: enabled before disabled, then by creation
    time. *)
Definition tree_order (a b : Pattern) : Prop :=
  (enabled a = true \/ enabled b = false)
  /\ (enabled a = enabled b -> createdAt a <= createdAt b).

Definition same_tree_key (p q : Pattern) : bool :=
  Bool.eqb (enabled p) (enabled q) && (createdAt p =? createdAt q).

Definition is_pattern_item (it : tree_item) : bool :=
  jstr_eqb (item_contextValue it) (str "patternItem").

Definition flip_enabled (p : Pattern) : Pattern :=
  mkPattern (id p) (text p) (colorIndex p) (negb (enabled p)) (createdAt p)
    (description p).

Definition exportable (p : Pattern) : Prop :=
  text p <> [] /\ trim (text p) = text p /\ id p <> []
  /\ 0 <= colorIndex p < COLOR_PALETTE_length /\ createdAt p <> 0.

(** The operations whose colour arguments are palette entries: an update's
    [colorIndex] (as [showColorSelection] gives it) is in [0, 7], and each
    imported entry's [colorIndex] is absent or an integer (the import's
    embedding gives other JSON values the default, where JS coerces them). *)
Definition colour_safe_op (o : store_op) : Prop :=
  match o with
  | OpUpdate _ u => forall k, u_colorIndex u = Some k -> 0 <= k < COLOR_PALETTE_length
  | OpImport ds _ _ =>
      Forall (fun d => forall v, get_prop d (str "colorIndex") = Some (Some v) ->
                                 exists z, v = JNum z) ds
  | _ => True
  end.

(** [no_lead l]: [l] does not start with white space. *)
Definition no_lead (l : jstr) : Prop :=
  match l with [] => True | c :: _ => is_js_space c = false end.

(** The ranges of a pattern, [[]] when its scan does not terminate. *)
Definition ranges_or_nil (doc : jstr) (c : PatternConfig) (p : Pattern) : list range :=
  match findPatternRanges doc p c with Some r => r | None => [] end.

(** [rangesByColor[k] || []]. *)
Definition color_group (k : Z) (g : list (Z * list range)) : list range :=
  match find (fun e => fst e =? k) g with Some e => snd e | None => [] end.

Section Scan.

Variables (dt st : jstr) (ww : bool).

Lemma skipn_nth_cons (l : jstr) (k : nat) :
  (k < length l)%nat -> skipn k l = nth k l 0 :: skipn (S k) l.
Proof.
  revert k; induction l as [|a l IH]; intros k Hk; simpl in Hk; [lia|].
  destruct k as [|k]; [reflexivity|].
  simpl. apply IH. lia.
Qed.

Lemma search_from_find (m k : nat) :
  (k + m = length dt)%nat ->
  search_from (skipn k dt) st k = find (occurs dt st) (seq k (S m)).
Proof.
  revert k; induction m as [|m IH]; intros k Hk.
  - rewrite skipn_all2 by lia. simpl. unfold occurs.
    rewrite skipn_all2 by lia. destruct (prefixb st []); reflexivity.
  - rewrite (skipn_nth_cons dt k) by lia.
    cbn [search_from seq find]. unfold occurs at 1.
    rewrite (skipn_nth_cons dt k) by lia.
    destruct (prefixb st (nth k dt 0 :: skipn (S k) dt)); [reflexivity|].
    apply IH. lia.
Qed.

Lemma indexOf_find (i : nat) :
  (i <= length dt)%nat ->
  indexOf dt st i = find (occurs dt st) (seq i (S (length dt - i))).
Proof.
  intros Hi. unfold indexOf.
  replace (Nat.min i (length dt)) with i by lia.
  apply search_from_find. lia.
Qed.

Lemma prefixb_length (p s : jstr) :
  prefixb p s = true -> (length p <= length s)%nat.
Proof.
  revert s; induction p as [|a p IH]; intros s H; simpl; [lia|].
  destruct s as [|b s]; [discriminate|].
  simpl in H. apply andb_prop in H as [_ H]. simpl. specialize (IH s H). lia.
Qed.

Lemma occurs_lt (k : nat) :
  st <> [] -> occurs dt st k = true -> (k < length dt)%nat.
Proof.
  intros Hne H. apply prefixb_length in H. rewrite length_skipn in H.
  destruct st; [congruence|]. simpl in H. lia.
Qed.

Lemma find_seq_some (f : nat -> bool) (i n k : nat) :
  find f (seq i n) = Some k ->
  (i <= k < i + n)%nat /\ f k = true /\
  (forall j, (i <= j < k)%nat -> f j = false).
Proof.
  revert i; induction n as [|n IH]; intros i H; simpl in H; [discriminate|].
  destruct (f i) eqn:Hf.
  - injection H as <-. split; [lia|]. split; [assumption|]. intros; lia.
  - destruct (IH (S i) H) as (Hb & Hk & Hj). split; [lia|]. split; [assumption|].
    intros j Hj'. destruct (Nat.eq_dec j i) as [->|]; [assumption|].
    apply Hj. lia.
Qed.

Lemma find_seq_none (f : nat -> bool) (i n : nat) :
  find f (seq i n) = None -> forall j, (i <= j < i + n)%nat -> f j = false.
Proof.
  revert i; induction n as [|n IH]; intros i H j Hj; [lia|].
  simpl in H. destruct (f i) eqn:Hf; [discriminate|].
  destruct (Nat.eq_dec j i) as [->|]; [assumption|].
  apply (IH (S i)); [assumption|lia].
Qed.

Lemma filter_seq_nil (g : nat -> bool) (i n : nat) :
  (forall j, (i <= j < i + n)%nat -> g j = false) -> filter g (seq i n) = [].
Proof.
  revert i; induction n as [|n IH]; intros i H; [reflexivity|].
  simpl. rewrite (H i) by lia. apply IH. intros j Hj. apply H. lia.
Qed.

(** The loop, started at [index] with enough fuel, yields the accepted
    occurrences at offsets [index .. length dt], in increasing order. *)
Lemma scan_correct (fuel index : nat) :
  st <> [] -> (index <= length dt)%nat -> (S (length dt - index) < fuel)%nat ->
  scan fuel dt st ww index =
  Some (filter (fun k => occurs dt st k && accepted dt st ww k)
          (seq index (S (length dt - index)))).
Proof.
  intros Hne. revert index; induction fuel as [|fuel IH]; intros index Hi Hf;
    [lia|].
  cbn [scan]. rewrite indexOf_find by assumption.
  destruct (find (occurs dt st) (seq index (S (length dt - index)))) as [k|]
    eqn:Hfind.
  - apply find_seq_some in Hfind as (Hb & Hk & Hbefore).
    pose proof (occurs_lt k Hne Hk) as Hlt.
    replace (S (length dt - index)) with ((k - index) + S (length dt - k))%nat
      by lia.
    rewrite seq_app, filter_app.
    rewrite filter_seq_nil
      by (intros j Hj; rewrite Hbefore by lia; reflexivity).
    replace (index + (k - index))%nat with k by lia.
    replace (S (length dt - k)) with (S (S (length dt - S k))) by lia.
    cbn [seq filter app]. rewrite Hk. rewrite (IH (k + 1)%nat) by lia.
    replace (k + 1)%nat with (S k) by lia.
    unfold accepted. destruct (ww && _); reflexivity.
  - rewrite filter_seq_nil; [reflexivity|].
    intros j Hj. rewrite (find_seq_none _ _ _ Hfind j) by lia. reflexivity.
Qed.

End Scan.

(** ** [findPatternRanges], characterised *)

Lemma lower_unit_not_nil (c : Z) : lower_unit c <> [].
Proof.
  unfold lower_unit.
  destruct ((65 <=? c) && (c <=? 90)); [discriminate|].
  destruct (c =? 304); discriminate.
Qed.

Lemma toLowerCase_not_nil (s : jstr) : s <> [] -> toLowerCase s <> [].
Proof.
  destruct s as [|c s]; [congruence|]. intros _. unfold toLowerCase; simpl.
  pose proof (lower_unit_not_nil c).
  destruct (lower_unit c); [congruence|discriminate].
Qed.

Lemma search_text_not_nil (p : Pattern) (config : PatternConfig) :
  text p <> [] -> search_text p config <> [].
Proof.
  intros H. unfold search_text. destruct (caseSensitive config);
    [assumption|apply toLowerCase_not_nil; assumption].
Qed.

(** With a non-empty search text, the ranges are those of the accepted
    occurrences in the normalised document, in increasing offset order. *)
Lemma findPatternRanges_spec (doc : jstr) (p : Pattern) (config : PatternConfig) :
  text p <> [] ->
  findPatternRanges doc p config =
  Some (map (range_at doc (length (search_text p config)))
          (filter (fun k => occurs (document_text doc config) (search_text p config) k
                            && accepted (document_text doc config)
                                 (search_text p config) (wholeWord config) k)
             (seq 0 (S (length (document_text doc config)))))).
Proof.
  intros H. unfold findPatternRanges, scan_fuel.
  rewrite scan_correct.
  - rewrite Nat.sub_0_r. reflexivity.
  - apply search_text_not_nil; assumption.
  - lia.
  - lia.
Qed.

(** With an empty search text the loop never exits: [indexOf] keeps finding
    the clamped start offset. *)
Lemma scan_empty_search (dt : jstr) (ww : bool) (fuel index : nat) :
  (index <= S (length dt))%nat -> scan fuel dt [] ww index = None.
Proof.
  revert index; induction fuel as [|fuel IH]; intros index Hi; [reflexivity|].
  cbn [scan]. unfold indexOf.
  destruct (skipn (Nat.min index (length dt)) dt); cbn [search_from prefixb];
  (destruct (ww && _);
   [apply IH; lia | rewrite IH by lia; reflexivity]).
Qed.

Lemma filter_true_on (f g : nat -> bool) (l : list nat) :
  (forall k, In k l -> g k = true) -> filter (fun k => f k && g k) l = filter f l.
Proof.
  induction l as [|a l IH]; intros H; [reflexivity|].
  simpl. rewrite (H a) by (left; reflexivity). rewrite andb_true_r.
  rewrite IH by (intros k Hk; apply H; right; assumption). reflexivity.
Qed.

Lemma StronglySorted_filter_lt (f : nat -> bool) (l : list nat) :
  StronglySorted lt l -> StronglySorted lt (filter f l).
Proof.
  induction 1 as [|a l Hs IH Hf]; [constructor|].
  simpl. destruct (f a); [|assumption].
  constructor; [assumption|].
  apply Forall_forall. intros x Hx. apply filter_In in Hx as [Hx _].
  rewrite Forall_forall in Hf. apply Hf. assumption.
Qed.

Lemma StronglySorted_seq (i n : nat) : StronglySorted lt (seq i n).
Proof.
  revert i; induction n as [|n IH]; intros i; [constructor|].
  simpl. constructor; [apply IH|].
  apply Forall_forall. intros x Hx. apply in_seq in Hx. lia.
Qed.

Example find_ex1 :
  option_map (map (fun r => character (r_start r)))
    (findPatternRanges (str "foo bar foo baz foo") (pat "foo") (cfg true false))
  = Some [0; 8; 16]%nat.
Proof. reflexivity. Qed.

Example find_ex2 :
  option_map (map (fun r => character (r_start r)))
    (findPatternRanges (str "foobar foo") (pat "foo") (cfg true true))
  = Some [7]%nat.
Proof. reflexivity. Qed.

(** ** Claims about the match finder *)

(** C1: for a pattern with non-empty text (the spec's pattern texts are
    never empty), case-sensitive and not whole-word, [findPatternRanges] returns one range per occurrence of the
    text in the document, at every offset where it occurs (the search resumes
    at [foundIndex + 1]), in ascending offset order; so ["aa"] in ["aaa"]
    gives two overlapping ranges. *)
Theorem findPatternRanges_case_sensitive_occurrences
    (doc : jstr) (p : Pattern) (config : PatternConfig) :
  caseSensitive config = true -> wholeWord config = false -> text p <> [] ->
  findPatternRanges doc p config =
  Some (map (range_at doc (length (text p)))
          (filter (occurs doc (text p)) (seq 0 (S (length doc)))))
  /\ findPatternRanges (str "aaa") (pat "aa") config =
     Some [range_at (str "aaa") 2 0; range_at (str "aaa") 2 1].
Proof.
  intros Hcs Hww Hne. split.
  - rewrite findPatternRanges_spec by assumption.
    unfold search_text, document_text, accepted. rewrite Hcs, Hww.
    simpl negb. rewrite filter_true_on by reflexivity. reflexivity.
  - unfold findPatternRanges, search_text, document_text.
    rewrite Hcs, Hww. reflexivity.
Qed.

Lemma findPatternRanges_case_sensitive_occurrences_witness :
  findPatternRanges (str "abab") (pat "ab") (cfg true false) =
  Some [range_at (str "abab") 2 0; range_at (str "abab") 2 2].
Proof.
  destruct (findPatternRanges_case_sensitive_occurrences (str "abab") (pat "ab")
              (cfg true false) eq_refl eq_refl ltac:(discriminate)) as [H _].
  rewrite H. reflexivity.
Defined.

(** C2 (amended): in whole-word mode, for a non-empty pattern text, an
    occurrence in the searched text (the document, lower-cased when the
    search is case-insensitive) is kept exactly when neither the code unit
    before it nor the one after it is a word character of [/\w/] (ASCII
    letter, ASCII digit or [_]); a missing neighbour counts as a space, which
    is not a word character. In ["foobar foo"], ["foo"] is kept only at
    offset 7. *)
Theorem findPatternRanges_whole_word
    (doc : jstr) (p : Pattern) (config : PatternConfig) :
  wholeWord config = true -> text p <> [] ->
  let st := search_text p config in
  let dt := document_text doc config in
  findPatternRanges doc p config =
  Some (map (range_at doc (length st))
          (filter (fun k => occurs dt st k
                            && negb (isWordCharacter (before_char dt k)
                                     || isWordCharacter (after_char dt st k)))
             (seq 0 (S (length dt)))))
  /\ (forall c, isWordCharacter c = true <->
                (65 <= c <= 90 \/ 97 <= c <= 122 \/ 48 <= c <= 57 \/ c = 95))
  /\ before_char dt 0 = space
  /\ (forall k, (length dt <= k + length st)%nat -> after_char dt st k = space)
  /\ isWordCharacter space = false
  /\ findPatternRanges (str "foobar foo") (pat "foo") (cfg true true) =
     Some [range_at (str "foobar foo") 3 7].
Proof.
  intros Hww Hne st dt. split; [|split; [|split; [|split; [|split]]]].
  - rewrite findPatternRanges_spec by assumption.
    unfold accepted. rewrite Hww. reflexivity.
  - intros c. unfold isWordCharacter.
    rewrite !orb_true_iff, !andb_true_iff, !Z.leb_le, Z.eqb_eq. lia.
  - reflexivity.
  - intros k Hk. unfold after_char.
    destruct (Nat.ltb_spec (k + length st) (length dt)); [lia|reflexivity].
  - reflexivity.
  - reflexivity.
Qed.

Lemma findPatternRanges_whole_word_witness :
  findPatternRanges (str "a foo_ foo.") (pat "foo") (cfg false true) =
  Some [range_at (str "a foo_ foo.") 3 7].
Proof.
  destruct (findPatternRanges_whole_word (str "a foo_ foo.") (pat "foo")
              (cfg false true) eq_refl ltac:(discriminate)) as [H _].
  rewrite H. reflexivity.
Defined.

(** C2 (counterexample): the occurrence of ["foo"] in ["éfoo"] is preceded by
    the letter é (U+00E9), which [/\w/] does not match, so whole-word mode
    keeps it. *)
Lemma whole_word_keeps_match_after_non_ascii_letter :
  char_at doc_e_acute_foo 0 = 233
  /\ findPatternRanges doc_e_acute_foo (pat "foo") (cfg true true) =
     Some [mkRange (mkPosition 0 1) (mkPosition 0 4)].
Proof. split; reflexivity. Qed.

(** C3 (amended): for a non-empty pattern text, the ranges come from offsets
    in strictly increasing order, each range covering the search text's
    length inside the searched text; ranges may overlap. *)
Theorem findPatternRanges_increasing_offsets
    (doc : jstr) (p : Pattern) (config : PatternConfig) :
  text p <> [] ->
  exists offs,
    findPatternRanges doc p config =
    Some (map (range_at doc (length (search_text p config))) offs)
    /\ StronglySorted lt offs
    /\ Forall (fun k => (k + length (search_text p config)
                         <= length (document_text doc config))%nat) offs.
Proof.
  intros Hne. eexists. split; [apply findPatternRanges_spec; assumption|].
  split.
  - apply StronglySorted_filter_lt, StronglySorted_seq.
  - apply Forall_forall. intros k Hk. apply filter_In in Hk as [_ Hk].
    apply andb_prop in Hk as [Hk _]. unfold occurs in Hk.
    apply prefixb_length in Hk. rewrite length_skipn in Hk.
    pose proof (search_text_not_nil p config Hne) as Hs.
    destruct (search_text p config); [congruence|]. simpl in *. lia.
Qed.

Lemma findPatternRanges_increasing_offsets_witness :
  exists offs,
    findPatternRanges (str "xaaax") (pat "aa") (cfg true false) =
    Some (map (range_at (str "xaaax") 2) offs)
    /\ StronglySorted lt offs.
Proof.
  destruct (findPatternRanges_increasing_offsets (str "xaaax") (pat "aa")
              (cfg true false) ltac:(discriminate)) as (offs & H1 & H2 & _).
  exists offs. split; assumption.
Defined.

(** C3 (counterexample): ["aa"] in ["aaa"] gives two ranges, the second
    starting before the first ends. *)
Lemma overlapping_ranges_aa_in_aaa :
  findPatternRanges (str "aaa") (pat "aa") (cfg true false) =
  Some [mkRange (mkPosition 0 0) (mkPosition 0 2);
        mkRange (mkPosition 0 1) (mkPosition 0 3)]
  /\ isBefore (mkPosition 0 1) (mkPosition 0 2) = true.
Proof. split; reflexivity. Qed.

(** C4 (code bug): case-insensitive search finds offsets in the lower-cased
    document but converts them with the positions of the original document.
    U+0130 lower-cases to two code units, so after it the ranges are shifted:
    in ["İ\nab"] the match of ["ab"] is reported as line 1, characters 1-2
    (covering only ["b"]), while the case-sensitive search of ["ab"] in the
    lower-cased document reports line 1, characters 0-2. *)
Theorem case_insensitive_ranges_shifted_after_U0130 :
  findPatternRanges doc_U0130 (pat "ab") (cfg false false) =
  Some [mkRange (mkPosition 1 1) (mkPosition 1 2)]
  /\ findPatternRanges (toLowerCase doc_U0130) (pat_lower (pat "ab"))
       (cfg true false) =
     Some [mkRange (mkPosition 1 0) (mkPosition 1 2)]
  /\ findPatternRanges doc_U0130 (pat "ab") (cfg false false) <>
     findPatternRanges (toLowerCase doc_U0130) (pat_lower (pat "ab"))
       (cfg true false).
Proof.
  split; [reflexivity|split; [reflexivity|]].
  vm_compute. congruence.
Qed.

(** ** Navigation *)

Lemma start_before_asym (a b : range) :
  start_before a b = true -> start_before b a = false.
Proof.
  unfold start_before.
  destruct (Nat.eqb_spec (line (r_start a)) (line (r_start b)));
  destruct (Nat.eqb_spec (line (r_start b)) (line (r_start a)));
  simpl; rewrite ?Nat.ltb_lt, ?Nat.ltb_ge; intros; try lia;
  apply Nat.ltb_ge; lia.
Qed.

Lemma insert_range_sorted (x : range) (l : list range) :
  Sorted start_le l -> Sorted start_le (insert_range x l).
Proof.
  induction 1 as [|y l Hs IH Hhd]; simpl; [repeat constructor|].
  destruct (start_before x y) eqn:Hxy.
  - constructor; [constructor; assumption|].
    constructor. unfold start_le. apply start_before_asym; assumption.
  - constructor; [assumption|].
    destruct l as [|z l]; simpl.
    + constructor. exact Hxy.
    + inversion Hhd; subst.
      destruct (start_before x z); constructor; assumption.
Qed.

Lemma sort_ranges_sorted (l : list range) : Sorted start_le (sort_ranges l).
Proof.
  unfold sort_ranges.
  assert (H : forall acc, Sorted start_le acc ->
              Sorted start_le (fold_left (fun acc x => insert_range x acc) l acc)).
  { induction l as [|x l IH]; intros acc Hacc; simpl; [assumption|].
    apply IH, insert_range_sorted; assumption. }
  apply H. constructor.
Qed.

Lemma find_first_split {A} (f : A -> bool) (l : list A) (x : A) :
  find f l = Some x ->
  exists l1 l2, l = l1 ++ x :: l2 /\ f x = true /\ Forall (fun y => f y = false) l1.
Proof.
  induction l as [|a l IH]; simpl; [discriminate|].
  destruct (f a) eqn:Hfa.
  - intros [= <-]. exists [], l. split; [reflexivity|]. split; [assumption|].
    constructor.
  - intros H. destruct (IH H) as (l1 & l2 & -> & Hx & Hl1).
    exists (a :: l1), l2. split; [reflexivity|]. split; [assumption|].
    constructor; assumption.
Qed.

Lemma find_none_all {A} (f : A -> bool) (l : list A) :
  find f l = None -> forall y, In y l -> f y = false.
Proof.
  induction l as [|a l IH]; simpl; [contradiction|].
  destruct (f a) eqn:Hfa; [discriminate|].
  intros H y [<-|Hy]; [assumption|]. apply IH; assumption.
Qed.

(** C5: the registered commands include the global and the selected-pattern
    jump-next and jump-previous commands, each routed to its handler; the
    global candidate list is sorted by start position; [jumpToNextHighlight]
    picks the first candidate (in that order) starting strictly after the
    cursor, else wraps to the first candidate; and it gives up ("no
    matches") exactly when the candidate list is empty. *)
Theorem jump_commands_and_jumpToNextHighlight :
  (forall c h, In (c, h) jump_command_ids -> In (c, Some h) registeredCommands)
  /\ (forall st doc hs, getHighlightRanges st doc = Some hs -> Sorted start_le hs)
  /\ (forall hs cur, jumpToNextHighlight hs cur = None <-> hs = [])
  /\ (forall hs cur h, jumpToNextHighlight hs cur = Some h ->
        (exists l1 l2, hs = l1 ++ h :: l2
                       /\ isAfter (r_start h) cur = true
                       /\ Forall (fun h' => isAfter (r_start h') cur = false) l1)
        \/ ((forall h', In h' hs -> isAfter (r_start h') cur = false)
            /\ hd_error hs = Some h)).
Proof.
  split; [|split; [|split]].
  - intros c h Hin. unfold jump_command_ids in Hin.
    repeat (destruct Hin as [Hin|Hin]; [injection Hin as <- <-; vm_compute;
                                         tauto|]).
    contradiction.
  - intros st doc hs. unfold getHighlightRanges.
    destruct (negb (cfg_enabled (config st))).
    + intros [= <-]. constructor.
    + destruct (collect_ranges _ _ _); simpl; [|discriminate].
      intros [= <-]. apply sort_ranges_sorted.
  - intros hs cur. unfold jumpToNextHighlight. split.
    + destruct hs as [|r hs]; [reflexivity|].
      destruct (find _ _); discriminate.
    + intros ->. reflexivity.
  - intros hs cur h. unfold jumpToNextHighlight.
    destruct hs as [|r hs]; [discriminate|].
    destruct (find (fun h0 => isAfter (r_start h0) cur) (r :: hs)) as [h'|] eqn:Hf.
    + intros [= <-]. left.
      destruct (find_first_split _ _ _ Hf) as (l1 & l2 & Heq & Hh & Hl1).
      exists l1, l2. split; [exact Heq|]. split; assumption.
    + intros [= <-]. right. split; [|reflexivity].
      apply find_none_all; assumption.
Qed.

(** ** The pattern store *)

Lemma update_first_id_length (x : jstr) (f : Pattern -> Pattern) (ps ps' : list Pattern) :
  update_first_id x f ps = Some ps' -> length ps' = length ps.
Proof.
  revert ps'; induction ps as [|p ps IH]; intros ps'; simpl; [discriminate|].
  destruct (jstr_eqb (id p) x).
  - intros [= <-]. reflexivity.
  - destruct (update_first_id x f ps) as [l|] eqn:E; simpl; [|discriminate].
    intros [= <-]. simpl. rewrite (IH l eq_refl). reflexivity.
Qed.

Lemma remove_first_id_split (x : jstr) (ps ps' : list Pattern) :
  remove_first_id x ps = Some ps' ->
  exists l1 q l2, ps = l1 ++ q :: l2 /\ ps' = l1 ++ l2
                  /\ jstr_eqb (id q) x = true
                  /\ Forall (fun p => jstr_eqb (id p) x = false) l1.
Proof.
  revert ps'; induction ps as [|p ps IH]; intros ps'; simpl; [discriminate|].
  destruct (jstr_eqb (id p) x) eqn:Hp.
  - intros [= <-]. exists [], p, ps. repeat split; auto.
  - destruct (remove_first_id x ps) as [l|] eqn:E; simpl; [|discriminate].
    intros [= <-]. destruct (IH l eq_refl) as (l1 & q & l2 & -> & -> & Hq & Hl1).
    exists (p :: l1), q, l2. repeat split; auto.
Qed.

Lemma addPattern_length (st : PatternManager) i n t d :
  (length (patterns st) <= MAX_PATTERNS)%nat ->
  (length (patterns (fst (addPattern st i n t d))) <= MAX_PATTERNS)%nat.
Proof.
  intros H. unfold addPattern.
  destruct (Nat.leb_spec MAX_PATTERNS (length (patterns st))); [assumption|].
  destruct (jstr_eqb (trim t) []); [assumption|].
  destruct (existsb _ _); [assumption|].
  destruct (getNextColorIndex _ _). simpl. rewrite length_app. simpl. lia.
Qed.

Lemma importPatterns_cases (st : PatternManager) ds fresh now :
  (snd (importPatterns st ds fresh now) = true
   /\ (length (patterns (fst (importPatterns st ds fresh now))) <= MAX_PATTERNS)%nat)
  \/ importPatterns st ds fresh now = (st, false).
Proof.
  unfold importPatterns. destruct (import_loop ds 0 fresh now) as [v|].
  - left. cbn [fst snd patterns]. split; [reflexivity|]. rewrite length_firstn. lia.
  - right. reflexivity.
Qed.

Lemma run_op_length (st : PatternManager) (o : store_op) :
  (length (patterns st) <= MAX_PATTERNS)%nat ->
  (length (patterns (run_op st o)) <= MAX_PATTERNS)%nat.
Proof.
  intros H. destruct o as [i n t d|x|x u|x| |c|ds f n]; cbn [run_op].
  - apply addPattern_length; assumption.
  - unfold removePattern. destruct (remove_first_id x _) as [ps|] eqn:E;
      [|assumption].
    destruct (remove_first_id_split _ _ _ E) as (l1 & q & l2 & Hps & -> & _).
    cbn [fst patterns]. rewrite Hps, length_app in H. rewrite length_app.
    simpl in H. lia.
  - unfold updatePattern. destruct (update_first_id _ _ _) as [ps|] eqn:E;
      [|assumption].
    cbn [fst patterns]. rewrite (update_first_id_length _ _ _ _ E). assumption.
  - unfold togglePattern. destruct (update_first_id _ _ _) as [ps|] eqn:E;
      [|assumption].
    cbn [fst patterns]. rewrite (update_first_id_length _ _ _ _ E). assumption.
  - unfold clearPatterns. destruct (patterns st) eqn:E; [rewrite E; exact H|].
    cbn [patterns length]. unfold MAX_PATTERNS. lia.
  - exact H.
  - destruct (importPatterns_cases st ds f n) as [[_ Hl]|Heq];
      [assumption|rewrite Heq; assumption].
Qed.

(** C6: at most [MAX_PATTERNS] = 8 patterns. [addPattern] with 8 patterns
    returns [null] and changes nothing; [importPatterns] keeps at most 8
    entries (or changes nothing when it fails); [loadState] keeps at most 8;
    and every sequence of operations keeps the count at most 8. *)
Theorem pattern_cap_invariant :
  MAX_PATTERNS = 8%nat
  /\ (forall st i n t d, length (patterns st) = MAX_PATTERNS ->
                         addPattern st i n t d = (st, None))
  /\ (forall st ds fresh now,
        (snd (importPatterns st ds fresh now) = true
         /\ (length (patterns (fst (importPatterns st ds fresh now)))
             <= MAX_PATTERNS)%nat)
        \/ importPatterns st ds fresh now = (st, false))
  /\ (forall sp sc sl, (length (patterns (loadState sp sc sl)) <= MAX_PATTERNS)%nat)
  /\ (forall st ops, (length (patterns st) <= MAX_PATTERNS)%nat ->
        (length (patterns (fold_left run_op ops st)) <= MAX_PATTERNS)%nat).
Proof.
  split; [reflexivity|split; [|split; [|split]]].
  - intros st i n t d H. unfold addPattern. rewrite H, Nat.leb_refl. reflexivity.
  - apply importPatterns_cases.
  - intros sp sc sl. unfold loadState. cbn [patterns]. rewrite length_firstn. lia.
  - intros st ops. revert st. induction ops as [|o ops IH]; intros st H;
      [assumption|]. simpl. apply IH, run_op_length. assumption.
Qed.

Lemma existsb_Zeqb_In (j : Z) (l : list Z) : existsb (Z.eqb j) l = true <-> In j l.
Proof.
  rewrite existsb_exists. split.
  - intros (y & Hy & Heq). apply Z.eqb_eq in Heq. subst. assumption.
  - intros H. exists j. split; [assumption|apply Z.eqb_refl].
Qed.

Lemma existsb_Zeqb_ext (i : Z) (l l' : list Z) :
  (forall j, In j l <-> In j l') -> existsb (Z.eqb i) l = existsb (Z.eqb i) l'.
Proof.
  intros H. apply eq_true_iff_eq. rewrite !existsb_Zeqb_In. apply H.
Qed.

Lemma find_ext_fun {A} (f g : A -> bool) (l : list A) :
  (forall x, f x = g x) -> find f l = find g l.
Proof.
  intros H. induction l as [|a l IH]; simpl; [reflexivity|].
  rewrite H, IH. reflexivity.
Qed.

Lemma find_map_fun {A B} (f : B -> bool) (g : A -> B) (l : list A) :
  find f (map g l) = option_map g (find (fun x => f (g x)) l).
Proof.
  induction l as [|a l IH]; simpl; [reflexivity|].
  destruct (f (g a)); [reflexivity|assumption].
Qed.

Lemma find_app_first {A} (f : A -> bool) (l1 l2 : list A) (q : A) :
  Forall (fun y => f y = false) l1 -> f q = true -> find f (l1 ++ q :: l2) = Some q.
Proof.
  induction 1 as [|y l1 Hy _ IH]; intros Hq; simpl; [rewrite Hq; reflexivity|].
  rewrite Hy. apply IH. assumption.
Qed.

Lemma addPattern_some (st st' : PatternManager) i n t d (p : Pattern) :
  addPattern st i n t d = (st', Some p) ->
  (colorIndex p, lastColorIndex st') = getNextColorIndex (patterns st) (lastColorIndex st)
  /\ text p = trim t /\ patterns st' = patterns st ++ [p].
Proof.
  unfold addPattern.
  destruct (MAX_PATTERNS <=? length (patterns st))%nat; [discriminate|].
  destruct (jstr_eqb (trim t) []); [discriminate|].
  destruct (existsb _ _); [discriminate|].
  destruct (getNextColorIndex _ _) as [ci l] eqn:E.
  intros [= <- <-]. simpl. auto.
Qed.

Lemma update_first_id_in (x : jstr) (f : Pattern -> Pattern) (ps : list Pattern) :
  existsb (fun p => jstr_eqb (id p) x) ps = true ->
  exists q ps', update_first_id x f ps = Some ps' /\ In (f q) ps'.
Proof.
  induction ps as [|p ps IH]; simpl; [discriminate|].
  destruct (jstr_eqb (id p) x).
  - intros _. exists p, (f p :: ps). split; [reflexivity|left; reflexivity].
  - intros H. destruct (IH H) as (q & ps' & -> & Hin).
    exists q, (p :: ps'). split; [reflexivity|right; assumption].
Qed.

(** C7 (amended): [addPattern] rejects a text equal, after lower-casing, to
    an existing pattern's text (null, store unchanged); [updatePattern] does
    no such check: for an existing id it applies any text. *)
Theorem addPattern_rejects_duplicate_updatePattern_unchecked :
  (forall st i n t d, existsb (same_text_ci t) (patterns st) = true ->
                      addPattern st i n t d = (st, None))
  /\ (forall st x u t, u_text u = Some t ->
        existsb (fun p => jstr_eqb (id p) x) (patterns st) = true ->
        snd (updatePattern st x u) = true
        /\ In t (map text (patterns (fst (updatePattern st x u))))).
Proof.
  split.
  - intros st i n t d H. unfold addPattern.
    destruct (MAX_PATTERNS <=? length (patterns st))%nat; [reflexivity|].
    destruct (jstr_eqb (trim t) []); [reflexivity|]. rewrite H. reflexivity.
  - intros st x u t Ht H. unfold updatePattern.
    destruct (update_first_id_in x (fun p => assign p u) _ H) as (q & ps' & -> & Hin).
    split; [reflexivity|]. cbn [fst patterns].
    apply in_map_iff. exists (assign q u). split; [|assumption].
    unfold assign. simpl. rewrite Ht. reflexivity.
Qed.

(** C7 (counterexample): [updatePattern] turns ["FIXME"] into ["todo"] next
    to ["TODO"]; the update succeeds and the two texts are equal after
    lower-casing. *)
Lemma updatePattern_makes_case_duplicate :
  updatePattern two_patterns_store (str "b") (text_update (str "todo")) =
  (mkStore [mkPattern (str "a") (str "TODO") 0 true 0 None;
            mkPattern (str "b") (str "todo") 1 true 0 None] DEFAULT_CONFIG 1, true)
  /\ toLowerCase (str "TODO") = toLowerCase (str "todo").
Proof. split; reflexivity. Qed.

(** C8 (amended): [addPattern] returns null and changes nothing for a text
    that is empty or white space only; it does not check the 2-character
    minimum: a text of one character after trimming is added when there is
    room and no duplicate. *)
Theorem addPattern_rejects_blank_accepts_one_char :
  (forall st i n t d, trim t = [] -> addPattern st i n t d = (st, None))
  /\ (forall st i n t d,
        (length (patterns st) < MAX_PATTERNS)%nat -> length (trim t) = 1%nat ->
        existsb (same_text_ci t) (patterns st) = false ->
        exists p, snd (addPattern st i n t d) = Some p /\ text p = trim t).
Proof.
  split.
  - intros st i n t d H. unfold addPattern.
    destruct (MAX_PATTERNS <=? length (patterns st))%nat; [reflexivity|].
    rewrite H. reflexivity.
  - intros st i n t d Hl H1 Hd. unfold addPattern.
    destruct (Nat.leb_spec MAX_PATTERNS (length (patterns st))); [lia|].
    destruct (trim t) as [|c [|c' r]] eqn:E; simpl in H1; try discriminate.
    simpl jstr_eqb. rewrite Hd.
    destruct (getNextColorIndex _ _). eexists. split; reflexivity.
Qed.

(** C8 (counterexample): on an empty store, [addPattern("a")] adds the
    pattern ["a"]. *)
Lemma addPattern_accepts_one_char_text :
  addPattern empty_store (str "x") 1 (str "a") None =
  (mkStore [mkPattern (str "x") (str "a") 0 true 1 None] DEFAULT_CONFIG 0,
   Some (mkPattern (str "x") (str "a") 0 true 1 None)).
Proof. reflexivity. Qed.

(** ** Colour slots *)

Lemma getNextColorIndex_cases (ps : list Pattern) (last : Z) :
  let used := map colorIndex ps in
  (exists i, getNextColorIndex ps last = (i, i) /\ 0 <= i < 8 /\ ~ In i used
             /\ forall j, 0 <= j < i -> In j used)
  \/ (getNextColorIndex ps last = (Z.rem (last + 1) 8, Z.rem (last + 1) 8)
      /\ forall j, 0 <= j < 8 -> In j used).
Proof.
  intros used. unfold getNextColorIndex. fold used.
  rewrite find_map_fun.
  destruct (find _ (seq 0 (Z.to_nat COLOR_PALETTE_length))) as [k|] eqn:Hf;
    simpl option_map; cbv zeta.
  - left. apply find_seq_some in Hf as (Hb & Hk & Hj).
    exists (Z.of_nat k). split; [reflexivity|].
    apply negb_true_iff in Hk.
    split; [simpl in Hb; lia|]. split.
    + intros Hin. apply existsb_Zeqb_In in Hin. congruence.
    + intros j Hj'. apply existsb_Zeqb_In.
      specialize (Hj (Z.to_nat j) ltac:(lia)).
      rewrite Z2Nat.id in Hj by lia. apply negb_false_iff in Hj. exact Hj.
  - right. split; [reflexivity|]. intros j Hj'. apply existsb_Zeqb_In.
    pose proof (find_seq_none _ _ _ Hf (Z.to_nat j) ltac:(simpl; lia)) as Hn.
    cbv beta in Hn. rewrite Z2Nat.id in Hn by lia. apply negb_false_iff in Hn. exact Hn.
Qed.

(** C9: [getNextColorIndex] gives the lowest slot in [0, 7] no current
    pattern uses, and records it as [lastColorIndex]; when all 8 slots are
    used it gives [(lastColorIndex + 1) % 8] (the JS remainder, which is
    [mod 8] for the non-negative values the store holds); [addPattern] uses
    it on the patterns present before the push; so when the 8 patterns use
    the 8 slots and the one in slot 3 is removed, the next pattern added gets
    slot 3. *)
Theorem color_slot_lowest_free_then_round_robin :
  (forall ps last,
     let used := map colorIndex ps in
     let '(i, last') := getNextColorIndex ps last in
     last' = i
     /\ ((exists j, 0 <= j < 8 /\ ~ In j used) ->
         0 <= i < 8 /\ ~ In i used /\ forall j, 0 <= j < i -> In j used)
     /\ ((forall j, 0 <= j < 8 -> In j used) ->
         i = Z.rem (last + 1) 8 /\ (0 <= last -> i = (last + 1) mod 8)))
  /\ (forall st i n t d st' p, addPattern st i n t d = (st', Some p) ->
        (colorIndex p, lastColorIndex st') =
        getNextColorIndex (patterns st) (lastColorIndex st))
  /\ (forall st x st' i n t d st'' p,
        Permutation (map colorIndex (patterns st)) [0; 1; 2; 3; 4; 5; 6; 7] ->
        (exists q, find (fun q => jstr_eqb (id q) x) (patterns st) = Some q
                   /\ colorIndex q = 3) ->
        removePattern st x = (st', true) ->
        addPattern st' i n t d = (st'', Some p) ->
        colorIndex p = 3).
Proof.
  split; [|split].
  - intros ps last used.
    destruct (getNextColorIndex_cases ps last) as
      [(i & -> & Hi & Hnot & Hlow)|(-> & Hall)].
    + split; [reflexivity|]. split; [intros _; auto|].
      intros Hall. exfalso. apply Hnot, Hall. assumption.
    + split; [reflexivity|]. split.
      * intros (j & Hj & Hn). exfalso. apply Hn, Hall. assumption.
      * intros _. split; [reflexivity|]. intros Hl.
        apply Z.rem_mod_nonneg; lia.
  - intros st i n t d st' p H. apply addPattern_some in H. apply H.
  - intros st x st' i n t d st'' p Hperm (q & Hq & Hq3) Hrem Hadd.
    unfold removePattern in Hrem.
    destruct (remove_first_id x (patterns st)) as [ps'|] eqn:E;
      [|congruence].
    injection Hrem as <-.
    destruct (remove_first_id_split _ _ _ E) as (l1 & q0 & l2 & Hps & -> & Hq0 & Hl1).
    rewrite Hps in Hq. rewrite find_app_first in Hq by assumption.
    injection Hq as <-.
    rewrite Hps, map_app in Hperm. simpl in Hperm. rewrite Hq3 in Hperm.
    change [0; 1; 2; 3; 4; 5; 6; 7] with ([0; 1; 2] ++ 3 :: [4; 5; 6; 7]) in Hperm.
    apply Permutation_app_inv in Hperm. rewrite <- map_app in Hperm.
    apply addPattern_some in Hadd as [Hc _].
    cbn [patterns lastColorIndex] in Hc. unfold getNextColorIndex in Hc.
    rewrite (find_ext_fun _
               (fun i => negb (existsb (Z.eqb i) [0; 1; 2; 4; 5; 6; 7]))) in Hc.
    + simpl in Hc. congruence.
    + intros y. f_equal. apply existsb_Zeqb_ext. intros j. split;
        [apply Permutation_in|apply Permutation_in; symmetry]; assumption.
Qed.

Lemma color_slot_lowest_free_then_round_robin_witness :
  colorIndex (mkPattern (str "n") (str "new") 3 true 9 None) = 3.
Proof.
  set (ps := map (fun k => mkPattern [k] (str "t" ++ [k]) k true 0 None)
                 [0; 1; 2; 3; 4; 5; 6; 7]).
  apply (proj2 (proj2 color_slot_lowest_free_then_round_robin)
           (mkStore ps DEFAULT_CONFIG 7) [3]
           (mkStore (filter (fun p => negb (colorIndex p =? 3)) ps) DEFAULT_CONFIG 7)
           (str "n") 9 (str "new") None
           (mkStore (filter (fun p => negb (colorIndex p =? 3)) ps
                     ++ [mkPattern (str "n") (str "new") 3 true 9 None])
              DEFAULT_CONFIG 3)).
  - apply Permutation_refl.
  - eexists. split; reflexivity.
  - reflexivity.
  - reflexivity.
Defined.

(** ** Import *)

Lemma get_prop_null (data : json) (k : jstr) : get_prop data k = None <-> data = JNull.
Proof. destruct data; simpl; split; congruence. Qed.

Lemma import_loop_null (ds : list json) n fresh now :
  In JNull ds -> import_loop ds n fresh now = None.
Proof.
  revert n; induction ds as [|d ds IH]; intros n Hin; [contradiction|].
  destruct Hin as [->|Hin]; [reflexivity|].
  simpl. rewrite (IH (S n) Hin).
  destruct (get_prop d (str "text")) as [[[] |] |]; try reflexivity.
  destruct (jstr_eqb s []); reflexivity.
Qed.

Lemma import_loop_texts (ds : list json) n fresh now :
  ~ In JNull ds ->
  exists valid, import_loop ds n fresh now = Some valid
                /\ map text valid = map trim (imported_texts ds).
Proof.
  revert n; induction ds as [|d ds IH]; intros n Hin.
  - exists []. split; reflexivity.
  - assert (Hd : d <> JNull) by (intros ->; apply Hin; left; reflexivity).
    assert (Hds : ~ In JNull ds) by (intros H; apply Hin; right; assumption).
    destruct (IH (S n) Hds) as (valid & Hv & Ht).
    unfold imported_texts. simpl flat_map. fold (imported_texts ds).
    simpl import_loop.
    destruct d as [| b | z | s | l | fs]; try congruence;
      try (exists valid; split; assumption).
    simpl get_prop. unfold text_field.
    destruct (assoc_last (str "text") fs) as [[| b | z | s | l | fs']|];
      try (exists valid; split; assumption).
    destruct (jstr_eqb s []); [exists valid; split; assumption|].
    rewrite Hv. eexists. split; [reflexivity|]. simpl. rewrite Ht. reflexivity.
Qed.

(** C10 (amended): when no entry is null, [importPatterns] succeeds and the
    new list's texts are the trimmed texts of the entries whose [text] field
    is a non-empty string, in order, cut to the first 8, whatever the list
    held before (configuration and [lastColorIndex] stay); there is no
    duplicate check: two ["TODO"] entries give two ["TODO"] patterns with
    distinct generated ids. A null entry makes the import fail with the
    store unchanged. *)
Theorem importPatterns_replaces_truncates_no_dedup :
  (forall st ds fresh now, ~ In JNull ds ->
     let '(st', ok) := importPatterns st ds fresh now in
     ok = true
     /\ map text (patterns st') = firstn MAX_PATTERNS (map trim (imported_texts ds))
     /\ config st' = config st /\ lastColorIndex st' = lastColorIndex st)
  /\ (forall st ds fresh now, In JNull ds ->
        importPatterns st ds fresh now = (st, false))
  /\ (forall st fresh now,
        let '(st', ok) := importPatterns st [entry_text "TODO"; entry_text "TODO"]
                            fresh now in
        ok = true /\ map text (patterns st') = [str "TODO"; str "TODO"]
        /\ map id (patterns st') = [fresh 0%nat; fresh 1%nat]).
Proof.
  split; [|split].
  - intros st ds fresh now Hn. unfold importPatterns.
    destruct (import_loop_texts ds 0 fresh now Hn) as (valid & -> & Ht).
    split; [reflexivity|]. split; [|split; reflexivity].
    cbn [patterns]. rewrite <- Ht. rewrite firstn_map. reflexivity.
  - intros st ds fresh now Hn. unfold importPatterns.
    rewrite import_loop_null by assumption. reflexivity.
  - intros st fresh now. repeat split.
Qed.

Lemma importPatterns_replaces_truncates_no_dedup_witness :
  map text (patterns (fst (importPatterns two_patterns_store
     [entry_text "a"; JNum 3; entry_text ""; entry_text " b "] fresh_ids 0)))
  = [str "a"; str "b"].
Proof.
  pose proof (proj1 importPatterns_replaces_truncates_no_dedup two_patterns_store
    [entry_text "a"; JNum 3; entry_text ""; entry_text " b "] fresh_ids 0
    ltac:(simpl; intuition discriminate)) as H.
  destruct (importPatterns _ _ _ _) as [st' ok]. destruct H as (_ & H & _).
  simpl fst. rewrite H. reflexivity.
Defined.

(** C10 (counterexample): importing [[null, {"text": "TODO"}]] over a store
    with two patterns fails and keeps the two patterns; the ["TODO"] entry is
    not imported and the list is not replaced. *)
Lemma importPatterns_null_entry_aborts :
  importPatterns two_patterns_store [JNull; entry_text "TODO"] fresh_ids 0 =
  (two_patterns_store, false).
Proof. reflexivity. Qed.

(** ** Further properties of the store *)

Lemma jstr_eqb_true (a b : jstr) : jstr_eqb a b = true <-> a = b.
Proof. unfold jstr_eqb. destruct (list_eq_dec Z.eq_dec a b); split; congruence. Qed.

Lemma jstr_eqb_false (a b : jstr) : jstr_eqb a b = false <-> a <> b.
Proof. unfold jstr_eqb. destruct (list_eq_dec Z.eq_dec a b); split; congruence. Qed.

Lemma jstr_eqb_refl (a : jstr) : jstr_eqb a a = true.
Proof. apply jstr_eqb_true. reflexivity. Qed.

Lemma update_first_id_none (x : jstr) (f : Pattern -> Pattern) (ps : list Pattern) :
  ~ In x (map id ps) -> update_first_id x f ps = None.
Proof.
  induction ps as [|p ps IH]; simpl; intros Hn; [reflexivity|].
  destruct (jstr_eqb (id p) x) eqn:E.
  - apply jstr_eqb_true in E. exfalso. apply Hn. left. assumption.
  - rewrite IH; [reflexivity|]. intros H. apply Hn. right. assumption.
Qed.

Lemma update_first_id_app (x : jstr) (f : Pattern -> Pattern) l1 q l2 :
  ~ In x (map id l1) -> id q = x ->
  update_first_id x f (l1 ++ q :: l2) = Some (l1 ++ f q :: l2).
Proof.
  intros Hn Hq. induction l1 as [|p l1 IH]; simpl.
  - rewrite Hq, jstr_eqb_refl. reflexivity.
  - simpl in Hn. destruct (jstr_eqb (id p) x) eqn:E.
    + apply jstr_eqb_true in E. exfalso. apply Hn. left. assumption.
    + rewrite IH; [reflexivity|]. intros H. apply Hn. right. assumption.
Qed.

Lemma first_with_id (x : jstr) (ps : list Pattern) :
  In x (map id ps) ->
  exists l1 q l2, ps = l1 ++ q :: l2 /\ id q = x /\ ~ In x (map id l1).
Proof.
  induction ps as [|p ps IH]; simpl; [contradiction|]. intros Hin.
  destruct (list_eq_dec Z.eq_dec (id p) x) as [Hp|Hp].
  - exists [], p, ps. repeat split; auto.
  - destruct Hin as [Hin|Hin]; [contradiction|].
    destruct (IH Hin) as (l1 & q & l2 & -> & Hq & Hl1).
    exists (p :: l1), q, l2. repeat split; auto.
    simpl. intros [H|H]; [congruence|contradiction].
Qed.

Lemma remove_first_id_none (x : jstr) (ps : list Pattern) :
  ~ In x (map id ps) -> remove_first_id x ps = None.
Proof.
  induction ps as [|p ps IH]; simpl; intros Hn; [reflexivity|].
  destruct (jstr_eqb (id p) x) eqn:E.
  - apply jstr_eqb_true in E. exfalso. apply Hn. left. assumption.
  - rewrite IH; [reflexivity|]. intros H. apply Hn. right. assumption.
Qed.

Lemma remove_first_id_app (x : jstr) l1 q l2 :
  ~ In x (map id l1) -> id q = x -> remove_first_id x (l1 ++ q :: l2) = Some (l1 ++ l2).
Proof.
  intros Hn Hq. induction l1 as [|p l1 IH]; simpl.
  - rewrite Hq, jstr_eqb_refl. reflexivity.
  - simpl in Hn. destruct (jstr_eqb (id p) x) eqn:E.
    + apply jstr_eqb_true in E. exfalso. apply Hn. left. assumption.
    + rewrite IH; [reflexivity|]. intros H. apply Hn. right. assumption.
Qed.

(** X1: [removePattern(id)] returns [false] and changes nothing when no
    pattern has the id; otherwise it deletes exactly the first pattern with
    that id, keeps the order of the others, the configuration and
    [lastColorIndex], and returns [true]. *)
Theorem removePattern_deletes_first_with_id :
  (forall st x, ~ In x (map id (patterns st)) -> removePattern st x = (st, false))
  /\ (forall st x, In x (map id (patterns st)) ->
        exists l1 q l2, patterns st = l1 ++ q :: l2 /\ id q = x
                        /\ ~ In x (map id l1)
                        /\ removePattern st x =
                           (mkStore (l1 ++ l2) (config st) (lastColorIndex st), true)).
Proof.
  split.
  - intros st x Hn. unfold removePattern. rewrite remove_first_id_none by assumption.
    reflexivity.
  - intros st x Hin. destruct (first_with_id x _ Hin) as (l1 & q & l2 & Hps & Hq & Hl1).
    exists l1, q, l2. repeat split; try assumption.
    unfold removePattern. rewrite Hps, remove_first_id_app by assumption. reflexivity.
Qed.

(** X2: [togglePattern(id)] flips the [enabled] flag of the first pattern with
    that id and nothing else, returning [true]; with no such pattern it
    returns [false] and changes nothing; toggling the same id twice gives
    back the store it started from. *)
Theorem togglePattern_twice_restores :
  (forall st x, ~ In x (map id (patterns st)) -> togglePattern st x = (st, false))
  /\ (forall st x, In x (map id (patterns st)) ->
        exists l1 q l2, patterns st = l1 ++ q :: l2 /\ id q = x
                        /\ ~ In x (map id l1)
                        /\ togglePattern st x =
                           (mkStore (l1 ++ flip_enabled q :: l2) (config st)
                              (lastColorIndex st), true))
  /\ (forall st x, fst (togglePattern (fst (togglePattern st x)) x) = st).
Proof.
  split; [|split].
  - intros st x Hn. unfold togglePattern. rewrite update_first_id_none by assumption.
    reflexivity.
  - intros st x Hin. destruct (first_with_id x _ Hin) as (l1 & q & l2 & Hps & Hq & Hl1).
    exists l1, q, l2. repeat split; try assumption.
    unfold togglePattern. rewrite Hps, update_first_id_app by assumption. reflexivity.
  - intros st x. destruct (in_dec (list_eq_dec Z.eq_dec) x (map id (patterns st)))
      as [Hin|Hn].
    + destruct (first_with_id x _ Hin) as (l1 & q & l2 & Hps & Hq & Hl1).
      unfold togglePattern at 2. rewrite Hps, update_first_id_app by assumption.
      unfold togglePattern. cbn [fst patterns].
      rewrite update_first_id_app by (simpl; assumption).
      destruct st as [ps c l]; cbn [patterns] in Hps; subst ps.
      destruct q. simpl. rewrite negb_involutive. reflexivity.
    + unfold togglePattern at 2. rewrite update_first_id_none by assumption.
      unfold togglePattern. rewrite update_first_id_none by assumption. reflexivity.
Qed.

(** X3: [updatePattern(id, updates)] returns [false] and changes nothing when
    no pattern has the id; otherwise it replaces the first pattern with that
    id by the pattern with the given fields overwritten ([Object.assign]),
    leaves every other pattern, the configuration and [lastColorIndex] as
    they were, and returns [true]. *)
Theorem updatePattern_assigns_first_with_id :
  (forall st x u, ~ In x (map id (patterns st)) -> updatePattern st x u = (st, false))
  /\ (forall st x u, In x (map id (patterns st)) ->
        exists l1 q l2, patterns st = l1 ++ q :: l2 /\ id q = x
                        /\ ~ In x (map id l1)
                        /\ updatePattern st x u =
                           (mkStore (l1 ++ assign q u :: l2) (config st)
                              (lastColorIndex st), true)).
Proof.
  split.
  - intros st x u Hn. unfold updatePattern. rewrite update_first_id_none by assumption.
    reflexivity.
  - intros st x u Hin. destruct (first_with_id x _ Hin) as (l1 & q & l2 & Hps & Hq & Hl1).
    exists l1, q, l2. repeat split; try assumption.
    unfold updatePattern. rewrite Hps, update_first_id_app by assumption. reflexivity.
Qed.

Lemma filter_all_true {A} (f : A -> bool) (l : list A) :
  Forall (fun x => f x = true) l -> filter f l = l.
Proof.
  induction 1 as [|x l Hx _ IH]; simpl; [reflexivity|]. rewrite Hx, IH. reflexivity.
Qed.

Lemma reload_well_formed (st : PatternManager) : well_formed st -> reload st = st.
Proof.
  intros [Hl Ht]. destruct st as [ps c l]. unfold reload, loadState, override.
  cbn [patterns config lastColorIndex] in *.
  rewrite filter_all_true.
  - rewrite firstn_all2 by assumption. reflexivity.
  - eapply Forall_impl; [|exact Ht]. intros p Hp. cbv beta.
    apply negb_true_iff, jstr_eqb_false. assumption.
Qed.

Lemma getNextColorIndex_fst_snd (ps : list Pattern) (last : Z) :
  snd (getNextColorIndex ps last) = fst (getNextColorIndex ps last).
Proof. unfold getNextColorIndex. destruct (find _ _); reflexivity. Qed.

Lemma addPattern_result (st : PatternManager) i n t d :
  addPattern st i n t d = (st, None)
  \/ ((length (patterns st) < MAX_PATTERNS)%nat /\ trim t <> []
      /\ existsb (same_text_ci t) (patterns st) = false
      /\ addPattern st i n t d =
         (mkStore (patterns st ++ [mkPattern i (trim t)
                                     (fst (getNextColorIndex (patterns st) (lastColorIndex st)))
                                     true n (option_map trim d)])
            (config st) (fst (getNextColorIndex (patterns st) (lastColorIndex st))),
          Some (mkPattern i (trim t)
                  (fst (getNextColorIndex (patterns st) (lastColorIndex st)))
                  true n (option_map trim d)))).
Proof.
  unfold addPattern.
  destruct (Nat.leb_spec MAX_PATTERNS (length (patterns st))); [left; reflexivity|].
  destruct (jstr_eqb (trim t) []) eqn:Et; [left; reflexivity|].
  destruct (existsb _ _) eqn:Ed; [left; reflexivity|].
  right. apply jstr_eqb_false in Et. repeat split; try assumption.
  pose proof (getNextColorIndex_fst_snd (patterns st) (lastColorIndex st)) as Hs.
  destruct (getNextColorIndex _ _) as [a b]. simpl in Hs |- *. subst b. reflexivity.
Qed.

(** X4: the state saved by [saveState] and read back by [loadState] is the
    store itself when it has at most 8 patterns and none with an empty text;
    adding, removing, toggling, clearing, changing the configuration and
    updating with a non-empty text (or no text) keep that property, so such
    stores survive a reload unchanged. *)
Theorem reload_restores_well_formed_store :
  (forall st, well_formed st -> reload st = st)
  /\ (forall st i n t d, well_formed st -> well_formed (fst (addPattern st i n t d)))
  /\ (forall st x, well_formed st -> well_formed (fst (removePattern st x)))
  /\ (forall st x, well_formed st -> well_formed (fst (togglePattern st x)))
  /\ (forall st, well_formed st -> well_formed (clearPatterns st))
  /\ (forall st c, well_formed st -> well_formed (updateConfig st c))
  /\ (forall st x u, well_formed st -> u_text u <> Some [] ->
        well_formed (fst (updatePattern st x u))).
Proof.
  split; [exact reload_well_formed|]. split; [|split; [|split; [|split; [|split]]]].
  - intros st i n t d [Hl Ht].
    destruct (addPattern_result st i n t d) as [->|(Hlt & Htr & _ & ->)];
      [split; assumption|].
    split; cbn [fst patterns].
    + rewrite length_app. simpl. unfold MAX_PATTERNS in *. lia.
    + apply Forall_app. split; [assumption|]. constructor; [exact Htr|constructor].
  - intros st x [Hl Ht]. destruct (in_dec (list_eq_dec Z.eq_dec) x (map id (patterns st)))
      as [Hin|Hn].
    + destruct (first_with_id x _ Hin) as (l1 & q & l2 & Hps & Hq & Hl1).
      unfold removePattern. rewrite Hps, remove_first_id_app by assumption.
      rewrite Hps in Hl, Ht. unfold well_formed. cbn [fst patterns].
      rewrite length_app in *. simpl in Hl.
      apply Forall_app in Ht as [H1 H2]. inversion H2; subst.
      split; [lia|]. apply Forall_app. split; assumption.
    + unfold removePattern. rewrite remove_first_id_none by assumption.
      split; assumption.
  - intros st x [Hl Ht]. unfold togglePattern.
    destruct (in_dec (list_eq_dec Z.eq_dec) x (map id (patterns st))) as [Hin|Hn].
    + destruct (first_with_id x _ Hin) as (l1 & q & l2 & Hps & Hq & Hl1).
      rewrite Hps, update_first_id_app by assumption. rewrite Hps in Hl, Ht.
      unfold well_formed. cbn [fst patterns]. rewrite !length_app in *. simpl in *.
      apply Forall_app in Ht as [H1 H2]. inversion H2; subst.
      split; [lia|]. apply Forall_app. split; [assumption|].
      constructor; assumption.
    + rewrite update_first_id_none by assumption. split; assumption.
  - intros st [Hl Ht]. unfold clearPatterns. destruct (patterns st) eqn:E.
    + split; [rewrite E; exact Hl|rewrite E; exact Ht].
    + split; cbn; [unfold MAX_PATTERNS; lia|constructor].
  - intros st c [Hl Ht]. split; assumption.
  - intros st x u [Hl Ht] Hu.
    destruct (in_dec (list_eq_dec Z.eq_dec) x (map id (patterns st))) as [Hin|Hn].
    + destruct (first_with_id x _ Hin) as (l1 & q & l2 & Hps & Hq & Hl1).
      unfold updatePattern. rewrite Hps, update_first_id_app by assumption.
      rewrite Hps in Hl, Ht. unfold well_formed. cbn [fst patterns]. rewrite !length_app in *. simpl in *.
      apply Forall_app in Ht as [H1 H2]. inversion H2; subst.
      split; [lia|]. apply Forall_app. split; [assumption|].
      constructor; [|assumption]. unfold assign. cbn [text].
      destruct (u_text u) as [t|] eqn:Eu; cbn [override]; [|assumption].
      intros ->. apply Hu. reflexivity.
    + unfold updatePattern. rewrite update_first_id_none by assumption.
      split; assumption.
Qed.

(** X5: an imported entry whose [text] is a non-empty string of white space
    only passes the import's check and becomes a pattern with the empty
    text (the check runs before [trim]); such a pattern is dropped when the
    saved state is loaded again. *)
Theorem import_blank_text_lost_on_reload (st : PatternManager) (s : jstr)
    (fresh : nat -> jstr) (now : Z) :
  s <> [] -> trim s = [] ->
  let '(st', ok) := importPatterns st [JObj [(str "text", JStr s)]] fresh now in
  ok = true /\ map text (patterns st') = [[]] /\ patterns (reload st') = [].
Proof.
  intros Hs Ht. unfold importPatterns. simpl import_loop.
  apply jstr_eqb_false in Hs. rewrite Hs. simpl.
  unfold import_pattern. simpl. rewrite Ht. repeat split.
Qed.

Lemma import_blank_text_lost_on_reload_witness :
  [32] <> [] /\ trim [32] = [] /\
  snd (importPatterns two_patterns_store [JObj [(str "text", JStr [32])]] fresh_ids 0)
  = true.
Proof.
  split; [discriminate|]. split; [reflexivity|].
  pose proof (import_blank_text_lost_on_reload two_patterns_store [32] fresh_ids 0
                ltac:(discriminate) ltac:(reflexivity)) as H.
  destruct (importPatterns _ _ _ _) as [st' ok]. apply H.
Defined.

Lemma get_prop_export_text (p : Pattern) :
  get_prop (export_entry p) (str "text") = Some (Some (JStr (text p))).
Proof. unfold export_entry. destruct (description p); reflexivity. Qed.

Lemma import_pattern_export (p : Pattern) (f : jstr) (now : Z) :
  exportable p -> import_pattern (export_entry p) (text p) f now = p.
Proof.
  intros (Ht & Htr & Hi & Hc & Hn). unfold COLOR_PALETTE_length in Hc.
  apply jstr_eqb_false in Hi. apply Z.eqb_neq in Hn.
  unfold import_pattern, export_entry.
  destruct p as [i t c e ca d]; cbn [id text colorIndex enabled createdAt description] in *.
  destruct d; simpl; rewrite Hi, Hn, Htr;
    replace (Z.min (Z.max c 0) 7) with c by lia; destruct e; reflexivity.
Qed.

Lemma import_loop_export (ps : list Pattern) (n : nat) fresh now :
  Forall exportable ps -> import_loop (map export_entry ps) n fresh now = Some ps.
Proof.
  intros H. revert n. induction H as [|p ps Hp _ IH]; intros n; [reflexivity|].
  cbn [map import_loop]. rewrite get_prop_export_text.
  destruct Hp as [Ht Hrest] eqn:E. clear E.
  assert (Hne : jstr_eqb (text p) [] = false) by (apply jstr_eqb_false; exact Ht).
  rewrite Hne, IH. simpl. rewrite import_pattern_export by (split; assumption).
  reflexivity.
Qed.

(** X6: exporting the patterns and importing the exported entries gives the
    same patterns back (ids, texts, colours, flags, times and descriptions),
    into any store, when there are at most 8 and each has a non-empty trimmed
    text, a non-empty id, a colour in [0, 7] and a non-zero creation time;
    the configuration and [lastColorIndex] of the importing store stay. *)
Theorem exportPatterns_importPatterns_round_trip (st st0 : PatternManager)
    (fresh : nat -> jstr) (now : Z) :
  (length (patterns st) <= MAX_PATTERNS)%nat -> Forall exportable (patterns st) ->
  importPatterns st0 (exportPatterns st) fresh now =
  (mkStore (patterns st) (config st0) (lastColorIndex st0), true).
Proof.
  intros Hl Hall. unfold importPatterns, exportPatterns.
  rewrite import_loop_export by assumption. rewrite firstn_all2 by assumption.
  reflexivity.
Qed.

Lemma exportPatterns_importPatterns_round_trip_witness :
  patterns (fst (importPatterns empty_store (exportPatterns
    (mkStore [mkPattern (str "p1") (str "TODO") 2 false 17 (Some (str "note"))]
       DEFAULT_CONFIG 2)) fresh_ids 99))
  = [mkPattern (str "p1") (str "TODO") 2 false 17 (Some (str "note"))].
Proof.
  rewrite (exportPatterns_importPatterns_round_trip
    (mkStore [mkPattern (str "p1") (str "TODO") 2 false 17 (Some (str "note"))]
       DEFAULT_CONFIG 2) empty_store fresh_ids 99).
  - reflexivity.
  - simpl. unfold MAX_PATTERNS. lia.
  - constructor; [|constructor]. unfold exportable, COLOR_PALETTE_length; simpl.
    repeat split; try discriminate; lia.
Defined.

Lemma Forall_firstn_of {A} (P : A -> Prop) (n : nat) (l : list A) :
  Forall P l -> Forall P (firstn n l).
Proof.
  revert l; induction n as [|n IH]; intros l H; [constructor|].
  destruct H as [|x l Hx Hl]; simpl; [constructor|]. constructor; [assumption|].
  apply IH; assumption.
Qed.

Lemma getNextColorIndex_below_cap (ps : list Pattern) (last : Z) :
  (length ps < 8)%nat -> 0 <= fst (getNextColorIndex ps last) < 8.
Proof.
  intros Hl. destruct (getNextColorIndex_cases ps last) as
    [(i & -> & Hi & _)|(_ & H)]; [exact Hi|]. exfalso.
  assert (Hinc : incl (map Z.of_nat (seq 0 8)) (map colorIndex ps)).
  { intros j Hj. apply in_map_iff in Hj as (k & <- & Hk). apply in_seq in Hk.
    apply H. lia. }
  apply NoDup_incl_length in Hinc.
  - rewrite length_map, length_seq, length_map in Hinc. lia.
  - apply NoDup_map_inv with (f := Z.to_nat). rewrite map_map.
    rewrite (map_ext_in _ (fun x => x)) by (intros; lia). rewrite map_id.
    apply seq_NoDup.
Qed.

Lemma import_pattern_colour (d : json) s f now :
  0 <= colorIndex (import_pattern d s f now) < COLOR_PALETTE_length.
Proof.
  unfold import_pattern, COLOR_PALETTE_length. cbn [colorIndex].
  destruct (get_prop d (str "colorIndex")) as [[[]|]|]; lia.
Qed.

Lemma import_loop_colours (ds : list json) n fresh now v :
  import_loop ds n fresh now = Some v ->
  Forall (fun p => 0 <= colorIndex p < COLOR_PALETTE_length) v.
Proof.
  revert n v. induction ds as [|d ds IH]; intros n v; simpl.
  - intros [= <-]. constructor.
  - destruct (get_prop d (str "text")) as [[[]|]|]; try (apply IH); try discriminate.
    destruct (jstr_eqb s []); [apply IH|].
    destruct (import_loop ds (S n) fresh now) as [v'|] eqn:E; simpl; [|discriminate].
    intros [= <-]. constructor; [apply import_pattern_colour|]. apply (IH _ _ E).
Qed.

Lemma run_op_colours (st : PatternManager) (o : store_op) :
  colours_in_palette st -> colour_safe_op o -> colours_in_palette (run_op st o).
Proof.
  unfold colours_in_palette, COLOR_PALETTE_length.
  intros H Ho. destruct o as [i n t d|x|x u|x| |c|ds f n]; cbn [run_op].
  - destruct (addPattern_result st i n t d) as [->|(Hlt & _ & _ & ->)]; [exact H|].
    cbn [fst patterns]. apply Forall_app. split; [exact H|].
    constructor; [|constructor]. cbn [colorIndex].
    apply getNextColorIndex_below_cap. exact Hlt.
  - destruct (in_dec (list_eq_dec Z.eq_dec) x (map id (patterns st))) as [Hin|Hn].
    + destruct (first_with_id x _ Hin) as (l1 & q & l2 & Hps & Hq & Hl1).
      unfold removePattern. rewrite Hps, remove_first_id_app by assumption.
      rewrite Hps in H. cbn [fst patterns]. apply Forall_app in H as [H1 H2].
      inversion H2; subst. apply Forall_app. split; assumption.
    + unfold removePattern. rewrite remove_first_id_none by assumption. exact H.
  - destruct (in_dec (list_eq_dec Z.eq_dec) x (map id (patterns st))) as [Hin|Hn].
    + destruct (first_with_id x _ Hin) as (l1 & q & l2 & Hps & Hq & Hl1).
      unfold updatePattern. rewrite Hps, update_first_id_app by assumption.
      rewrite Hps in H. cbn [fst patterns]. apply Forall_app in H as [H1 H2].
      inversion H2; subst. apply Forall_app. split; [assumption|].
      constructor; [|assumption]. unfold assign. cbn [colorIndex].
      destruct (u_colorIndex u) as [k|] eqn:Ek; cbn [override]; [|assumption].
      apply (Ho k Ek).
    + unfold updatePattern. rewrite update_first_id_none by assumption. exact H.
  - destruct (in_dec (list_eq_dec Z.eq_dec) x (map id (patterns st))) as [Hin|Hn].
    + destruct (first_with_id x _ Hin) as (l1 & q & l2 & Hps & Hq & Hl1).
      unfold togglePattern. rewrite Hps, update_first_id_app by assumption.
      rewrite Hps in H. cbn [fst patterns]. apply Forall_app in H as [H1 H2].
      inversion H2; subst. apply Forall_app. split; [assumption|].
      constructor; assumption.
    + unfold togglePattern. rewrite update_first_id_none by assumption. exact H.
  - unfold clearPatterns. destruct (patterns st) eqn:E; [rewrite E; exact H|].
    constructor.
  - exact H.
  - unfold importPatterns. destruct (import_loop ds 0 f n) as [v|] eqn:E; [|exact H].
    cbn [fst patterns]. apply Forall_firstn_of. apply (import_loop_colours _ _ _ _ _ E).
Qed.

(** X7: every colour index stays an index of [COLOR_PALETTE] ([0, 7]) under
    any sequence of adds, removals, updates whose colour is a palette index,
    toggles, clears, configuration changes and imports whose entries carry an
    integer or no [colorIndex] (the import clamps it to [0, 7]): [addPattern] only
    adds below the cap, where a free slot always exists. *)
Theorem colours_stay_in_palette (st : PatternManager) (ops : list store_op) :
  colours_in_palette st -> Forall colour_safe_op ops ->
  colours_in_palette (fold_left run_op ops st).
Proof.
  intros H Hops. revert st H. induction Hops as [|o ops Ho _ IH]; intros st H;
    [exact H|].
  simpl. apply IH. apply run_op_colours; assumption.
Qed.

Lemma colours_stay_in_palette_witness :
  colours_in_palette (fold_left run_op
    [OpAdd (str "x") 1 (str "TODO") None; OpAdd (str "y") 2 (str "BUG") None;
     OpUpdate (str "x") (mkUpdate None None (Some 7) None None None);
     OpImport [JObj [(str "text", JStr (str "NOTE")); (str "colorIndex", JNum 42)]]
       fresh_ids 3] empty_store)
  /\ map colorIndex (patterns (fold_left run_op
    [OpAdd (str "x") 1 (str "TODO") None; OpAdd (str "y") 2 (str "BUG") None;
     OpUpdate (str "x") (mkUpdate None None (Some 7) None None None);
     OpImport [JObj [(str "text", JStr (str "NOTE")); (str "colorIndex", JNum 42)]]
       fresh_ids 3] empty_store)) = [7].
Proof.
  split; [|reflexivity].
  apply colours_stay_in_palette; [constructor|].
  constructor; [exact I|]. constructor; [exact I|].
  constructor; [intros c Hc; injection Hc as <-; unfold COLOR_PALETTE_length; lia|].
  constructor; [|constructor]. constructor; [|constructor].
  intros v Hv. injection Hv as <-. eexists. reflexivity.
Defined.

(** ** Case-insensitive uniqueness through the dialogs *)

Lemma no_lead_drop_spaces (s : jstr) : no_lead (drop_spaces s).
Proof.
  induction s as [|c s IH]; simpl; [exact I|].
  destruct (is_js_space c) eqn:E; [exact IH|exact E].
Qed.

Lemma drop_spaces_no_lead (s : jstr) : no_lead s -> drop_spaces s = s.
Proof. destruct s as [|c s]; simpl; [reflexivity|]. intros ->. reflexivity. Qed.

Lemma drop_spaces_suffix (s : jstr) : exists pre, s = pre ++ drop_spaces s.
Proof.
  induction s as [|c s (pre & Hpre)]; simpl; [exists []; reflexivity|].
  destruct (is_js_space c); [exists (c :: pre); simpl; f_equal; exact Hpre|].
  exists []. reflexivity.
Qed.

Lemma no_lead_app (l1 l2 : jstr) : no_lead (l1 ++ l2) -> l1 <> [] -> no_lead l1.
Proof. destruct l1; simpl; [congruence|tauto]. Qed.

Lemma no_lead_trim (s : jstr) : no_lead (trim s).
Proof.
  unfold trim. set (a := drop_spaces s). set (b := drop_spaces (rev a)).
  destruct (drop_spaces_suffix (rev a)) as (pre & Hpre). fold b in Hpre.
  destruct (list_eq_dec Z.eq_dec b []) as [E|E]; [rewrite E; exact I|].
  apply (no_lead_app _ (rev pre)).
  - rewrite <- rev_app_distr, <- Hpre, rev_involutive. apply no_lead_drop_spaces.
  - intros H. apply E. apply (f_equal (@rev Z)) in H. rewrite rev_involutive in H.
    exact H.
Qed.

Lemma trim_idem (s : jstr) : trim (trim s) = trim s.
Proof.
  change (rev (drop_spaces (rev (drop_spaces (trim s)))) = trim s).
  rewrite (drop_spaces_no_lead _ (no_lead_trim s)).
  unfold trim. rewrite rev_involutive.
  rewrite (drop_spaces_no_lead _ (no_lead_drop_spaces _)). reflexivity.
Qed.

Lemma trim_space_cons (s : jstr) : trim (32 :: s) = trim s.
Proof. reflexivity. Qed.

Lemma NoDup_snoc {A} (l : list A) (x : A) : NoDup l -> ~ In x l -> NoDup (l ++ [x]).
Proof.
  intros Hl Hx. apply (Permutation_NoDup (l := x :: l)).
  - apply Permutation_cons_append.
  - constructor; assumption.
Qed.

Lemma existsb_same_text_ci_false (t : jstr) (ps : list Pattern) :
  existsb (same_text_ci t) ps = false ->
  ~ In (toLowerCase t) (map (fun p => toLowerCase (text p)) ps).
Proof.
  intros H Hin. apply in_map_iff in Hin as (p & Hp & Hin).
  assert (existsb (same_text_ci t) ps = true); [|congruence].
  apply existsb_exists. exists p. split; [assumption|].
  unfold same_text_ci. apply jstr_eqb_true. assumption.
Qed.

Lemma addPattern_trimmed_unique (st : PatternManager) i n t d :
  trim t = t -> texts_unique_ci (patterns st) ->
  texts_unique_ci (patterns (fst (addPattern st i n t d))).
Proof.
  intros Ht Hu. destruct (addPattern_result st i n t d) as [->|(_ & _ & Hd & ->)];
    [exact Hu|].
  unfold texts_unique_ci. cbn [fst patterns]. rewrite map_app. simpl.
  rewrite Ht. apply NoDup_snoc; [exact Hu|].
  apply existsb_same_text_ci_false. exact Hd.
Qed.

Lemma togglePattern_texts (st : PatternManager) (x : jstr) :
  map text (patterns (fst (togglePattern st x))) = map text (patterns st).
Proof.
  destruct (in_dec (list_eq_dec Z.eq_dec) x (map id (patterns st))) as [Hin|Hn].
  - destruct (first_with_id x _ Hin) as (l1 & q & l2 & Hps & Hq & Hl1).
    unfold togglePattern. rewrite Hps, update_first_id_app by assumption.
    cbn [fst patterns]. rewrite !map_app. reflexivity.
  - unfold togglePattern. rewrite update_first_id_none by assumption. reflexivity.
Qed.

(** X8: the three ways of adding a pattern from the UI (the inline tree
    entry [createPatternFromInline], [addPatternFromSelection] including its
    "Toggle Pattern" answer, and the add dialog [showInlineInputBox] without
    a pattern id) keep the pattern texts pairwise distinct after
    lower-casing: each passes a trimmed text to [addPattern], whose check
    then compares the text it stores. *)
Theorem add_dialogs_keep_texts_unique :
  (forall st newId now t d, texts_unique_ci (patterns st) ->
     texts_unique_ci (patterns (createPatternFromInline st newId now t d)))
  /\ (forall st selection tog choice newId now, texts_unique_ci (patterns st) ->
     texts_unique_ci (patterns (addPatternFromSelection st selection tog choice newId now)))
  /\ (forall st v newId now, texts_unique_ci (patterns st) ->
     texts_unique_ci (patterns (showInlineInputBox st None v newId now))).
Proof.
  split; [|split].
  - intros st newId now t d Hu. unfold createPatternFromInline.
    repeat match goal with |- context [if ?b then _ else _] => destruct b end;
      try exact Hu.
    apply addPattern_trimmed_unique; [apply trim_idem|exact Hu].
  - intros st sel tog ch newId now Hu. unfold addPatternFromSelection.
    destruct (jstr_eqb (trim sel) []); [exact Hu|].
    destruct (100 <? length (trim sel))%nat; [exact Hu|].
    destruct (find _ _) as [e|].
    + destruct tog; [|exact Hu]. unfold texts_unique_ci.
      rewrite <- map_map with (g := toLowerCase) (f := text).
      rewrite togglePattern_texts, map_map. exact Hu.
    + destruct (MAX_PATTERNS <=? length (patterns st))%nat; [exact Hu|].
      destruct ch as [| |dd]; [exact Hu| |];
        (apply addPattern_trimmed_unique; [apply trim_idem|exact Hu]).
  - intros st v newId now Hu. unfold showInlineInputBox.
    destruct v as [v|]; [|exact Hu]. destruct (jstr_eqb v []); [exact Hu|].
    apply addPattern_trimmed_unique; [apply trim_idem|exact Hu].
Qed.

Lemma find_first_id (x : jstr) l1 q l2 :
  ~ In x (map id l1) -> id q = x ->
  find (fun p => jstr_eqb (id p) x) (l1 ++ q :: l2) = Some q.
Proof.
  intros Hn Hq. induction l1 as [|p l1 IH]; simpl.
  - rewrite Hq, jstr_eqb_refl. reflexivity.
  - simpl in Hn. destruct (jstr_eqb (id p) x) eqn:E.
    + apply jstr_eqb_true in E. tauto.
    + apply IH. tauto.
Qed.

Lemma trimmed_no_lead (t : jstr) : trim t = t -> no_lead t.
Proof. intros H. rewrite <- H. apply no_lead_trim. Qed.

Lemma lower_no_lead_head (t r : jstr) : no_lead t -> toLowerCase t <> 32 :: r.
Proof.
  destruct t as [|c t]; [discriminate|]. simpl. intros Hc.
  unfold lower_unit.
  destruct ((65 <=? c) && (c <=? 90)) eqn:E1.
  - apply andb_prop in E1 as [E1 _]. apply Z.leb_le in E1.
    simpl. intros H. injection H as H. lia.
  - destruct (c =? 304); [discriminate|].
    simpl. intros H. injection H as -> _. discriminate.
Qed.

(** X9: editing a pattern in the tree accepts a value that is another
    pattern's text preceded by a space: [validateInput] compares the
    untrimmed value, which differs from every trimmed stored text after
    lower-casing, while [showInlineInputBox] stores the trimmed value, so
    two patterns end up with texts equal after lower-casing. *)
Theorem inline_edit_accepts_case_duplicate (st : PatternManager) (x : jstr)
    (q : Pattern) (newId : jstr) (now : Z) :
  x <> [] -> In x (map id (patterns st)) -> In q (patterns st) -> id q <> x ->
  Forall (fun r => trim (text r) = text r) (patterns st) ->
  (2 <= length (text q) < 100)%nat ->
  validateInput (patterns st) (Some x) (32 :: text q) = None
  /\ ~ texts_unique_ci
         (patterns (showInlineInputBox st (Some x) (Some (32 :: text q)) newId now)).
Proof.
  intros Hx Hin Hq Hqx Htr Hlen.
  assert (Tq : trim (32 :: text q) = text q).
  { rewrite trim_space_cons. exact (proj1 (Forall_forall _ _) Htr q Hq). }
  split.
  - unfold validateInput. rewrite Tq.
    destruct (jstr_eqb (text q) []) eqn:E1.
    { apply jstr_eqb_true in E1. rewrite E1 in Hlen. simpl in Hlen. lia. }
    destruct (length (text q) <? 2)%nat eqn:E2.
    { apply Nat.ltb_lt in E2. lia. }
    destruct (existsb _ (patterns st)) eqn:E3.
    { exfalso. apply existsb_exists in E3 as (r & Hr & Hr2).
      apply andb_prop in Hr2 as [_ Hs]. unfold same_text_ci in Hs.
      apply jstr_eqb_true in Hs.
      change (toLowerCase (32 :: text q)) with (32 :: toLowerCase (text q)) in Hs.
      apply (lower_no_lead_head (text r) (toLowerCase (text q))); [|exact Hs].
      apply trimmed_no_lead. exact (proj1 (Forall_forall _ _) Htr r Hr). }
    cbn [length]. destruct (100 <? S (length (text q)))%nat eqn:E4.
    { apply Nat.ltb_lt in E4. lia. }
    reflexivity.
  - unfold showInlineInputBox. cbv beta iota zeta.
    destruct (jstr_eqb (32 :: text q) []) eqn:E; [apply jstr_eqb_true in E; discriminate|].
    destruct (jstr_eqb x []) eqn:Ex; [apply jstr_eqb_true in Ex; contradiction|].
    destruct (first_with_id x _ Hin) as (l1 & p & l2 & Hps & Hp & Hl1).
    rewrite Hps, (find_first_id x l1 p l2 Hl1 Hp).
    unfold updatePattern. rewrite Hps, Hp, (update_first_id_app x _ l1 p l2 Hl1 Hp).
    cbn [fst patterns]. unfold texts_unique_ci. rewrite map_app. cbn [map].
    cbn [assign text_update u_text override text]. rewrite Tq.
    intros Hnd. apply NoDup_remove_2 in Hnd. apply Hnd.
    rewrite <- map_app. apply (in_map (fun r => toLowerCase (text r))).
    rewrite Hps in Hq. apply in_app_or in Hq as [Hq|[Hq|Hq]].
    + apply in_or_app. left. exact Hq.
    + subst p. contradiction.
    + apply in_or_app. right. exact Hq.
Qed.

Lemma inline_edit_accepts_case_duplicate_witness :
  validateInput (patterns two_patterns_store) (Some (str "b")) (32 :: str "TODO") = None
  /\ ~ texts_unique_ci (patterns (showInlineInputBox two_patterns_store (Some (str "b"))
                                   (Some (32 :: str "TODO")) (str "c") 5)).
Proof.
  apply (inline_edit_accepts_case_duplicate two_patterns_store (str "b")
           (mkPattern (str "a") (str "TODO") 0 true 0 None) (str "c") 5).
  - discriminate.
  - right. left. reflexivity.
  - left. reflexivity.
  - discriminate.
  - constructor; [reflexivity|constructor; [reflexivity|constructor]].
  - cbn. lia.
Defined.

(** ** Navigation *)

Lemma find_app_none {A} (f : A -> bool) (l1 l2 : list A) :
  Forall (fun x => f x = false) l1 -> find f (l1 ++ l2) = find f l2.
Proof. induction 1 as [|x l Hx _ IH]; simpl; [reflexivity|]. rewrite Hx. exact IH. Qed.

Lemma find_all_false {A} (f : A -> bool) (l : list A) :
  Forall (fun x => f x = false) l -> find f l = None.
Proof. intros H. rewrite <- (app_nil_r l), find_app_none by exact H. reflexivity. Qed.

Lemma last_default_irrelevant {A} (l : list A) (x d1 d2 : A) :
  last (x :: l) d1 = last (x :: l) d2.
Proof.
  revert x. induction l as [|y l IH]; intros x; [reflexivity|].
  change (last (y :: l) d1 = last (y :: l) d2). apply IH.
Qed.

Lemma jumpToPreviousHighlight_nonempty (hs : list range) (cur : position) (d : range) :
  hs <> [] ->
  jumpToPreviousHighlight hs cur =
  match find (fun h => isBefore (r_end h) cur) (rev hs) with
  | Some h => Some h
  | None => Some (last hs d)
  end.
Proof.
  destruct hs as [|x hs]; [congruence|]. intros _. unfold jumpToPreviousHighlight.
  destruct (find _ _); [reflexivity|]. rewrite (last_default_irrelevant hs x x d).
  reflexivity.
Qed.

(** X10: [jumpToPreviousHighlight] moves to the last candidate, in list
    order, that ends strictly before the cursor; when no candidate ends
    before the cursor it wraps to the last candidate, and on an empty list
    it does nothing. *)
Theorem jumpToPreviousHighlight_last_before (cur : position) :
  jumpToPreviousHighlight [] cur = None
  /\ (forall l1 h l2, isBefore (r_end h) cur = true ->
        Forall (fun h' => isBefore (r_end h') cur = false) l2 ->
        jumpToPreviousHighlight (l1 ++ h :: l2) cur = Some h)
  /\ (forall l h, Forall (fun h' => isBefore (r_end h') cur = false) (l ++ [h]) ->
        jumpToPreviousHighlight (l ++ [h]) cur = Some h).
Proof.
  split; [reflexivity|split].
  - intros l1 h l2 Hh Hl2.
    rewrite (jumpToPreviousHighlight_nonempty _ _ h) by (destruct l1; discriminate).
    rewrite rev_app_distr. cbn [rev]. rewrite <- app_assoc. cbn [app].
    rewrite find_app_none by (apply Forall_rev; exact Hl2).
    cbn [find]. rewrite Hh. reflexivity.
  - intros l h Hall.
    rewrite (jumpToPreviousHighlight_nonempty _ _ h) by (destruct l; discriminate).
    rewrite find_all_false by (apply Forall_rev; exact Hall).
    rewrite last_last. reflexivity.
Qed.

Lemma pattern_at_some (doc : jstr) (c : PatternConfig) (pos : position)
    (ps : list Pattern) (p : Pattern) :
  pattern_at doc c pos ps = Some (Some p) <->
  exists l1 l2 ranges, ps = l1 ++ p :: l2
    /\ findPatternRanges doc p c = Some ranges
    /\ existsb (fun r => contains r pos) ranges = true
    /\ Forall (fun q => exists rs, findPatternRanges doc q c = Some rs
                                  /\ existsb (fun r => contains r pos) rs = false) l1.
Proof.
  split.
  - induction ps as [|q ps IH]; simpl; [discriminate|].
    destruct (findPatternRanges doc q c) as [rq|] eqn:Eq; [|discriminate].
    destruct (existsb _ rq) eqn:Ee.
    + intros [= <-]. exists [], ps, rq. repeat split; auto.
    + intros H. destruct (IH H) as (l1 & l2 & rs & -> & Hf & He & Hl1).
      exists (q :: l1), l2, rs. repeat split; auto.
      constructor; [exists rq; split; assumption|exact Hl1].
  - intros (l1 & l2 & rs & -> & Hf & He & Hl1).
    induction Hl1 as [|q l1 (rq & Hq & Hqe) _ IH]; simpl.
    + rewrite Hf, He. reflexivity.
    + rewrite Hq, Hqe. exact IH.
Qed.

(** X11: [getPatternAtCursor] reports a pattern exactly when highlighting is
    enabled in the config and the pattern is the first enabled pattern, in
    store order, with a range containing the cursor (bounds included); the
    enabled patterns before it have no range containing the cursor. *)
Theorem getPatternAtCursor_first_containing (st : PatternManager) (doc : jstr)
    (pos : position) (p : Pattern) :
  getPatternAtCursor st doc pos = Some (Some p) <->
  cfg_enabled (config st) = true
  /\ exists l1 l2 ranges, getEnabledPatterns st = l1 ++ p :: l2
     /\ findPatternRanges doc p (config st) = Some ranges
     /\ (exists r, In r ranges /\ contains r pos = true)
     /\ Forall (fun q => exists rs, findPatternRanges doc q (config st) = Some rs
                                   /\ forallb (fun r => negb (contains r pos)) rs = true) l1.
Proof.
  unfold getPatternAtCursor.
  assert (Hconv : forall rs, forallb (fun r => negb (contains r pos)) rs = true <->
                             existsb (fun r => contains r pos) rs = false).
  { intros rs. induction rs as [|r rs IH]; simpl; [tauto|].
    destruct (contains r pos); simpl; [split; discriminate|exact IH]. }
  split.
  - destruct (cfg_enabled (config st)); [|discriminate].
    destruct (length (getEnabledPatterns st) =? 0)%nat; [discriminate|].
    cbn [negb orb]. intros H. split; [reflexivity|].
    apply pattern_at_some in H as (l1 & l2 & rs & Hps & Hf & He & Hl1).
    exists l1, l2, rs. repeat split; try assumption.
    + apply existsb_exists in He. exact He.
    + eapply Forall_impl; [|exact Hl1]. intros q (rq & Hq & Hqe).
      exists rq. split; [exact Hq|]. apply Hconv. exact Hqe.
  - intros (He & l1 & l2 & rs & Hps & Hf & Hr & Hl1). rewrite He.
    rewrite Hps, length_app. cbn [length].
    replace (length l1 + S (length l2) =? 0)%nat with false
      by (symmetry; apply Nat.eqb_neq; lia).
    cbn [negb orb]. rewrite <- Hps. apply pattern_at_some.
    exists l1, l2, rs. repeat split; try assumption.
    + apply existsb_exists. exact Hr.
    + eapply Forall_impl; [|exact Hl1]. intros q (rq & Hq & Hqe).
      exists rq. split; [exact Hq|]. apply Hconv. exact Hqe.
Qed.

(** X12: with highlighting disabled in the config, the global jump command
    has no candidates and does nothing, while the selected-pattern jump
    still navigates: no pattern is found under the cursor, so it falls back
    to the first enabled pattern and jumps among that pattern's occurrences. *)
Theorem selected_jump_ignores_disabled_config (st : PatternManager) (doc : jstr)
    (pos : position) (p : Pattern) (ps : list Pattern) :
  cfg_enabled (config st) = false -> getEnabledPatterns st = p :: ps ->
  jumpToNext_command st doc pos = Some None
  /\ jumpToNextSelectedPatternOccurrence st doc pos
     = navigateToNextPatternOccurrence st doc pos p.
Proof.
  intros Hc Hps. split.
  - unfold jumpToNext_command, getHighlightRanges. rewrite Hc. reflexivity.
  - unfold jumpToNextSelectedPatternOccurrence, getPatternAtCursor.
    rewrite Hc, Hps. reflexivity.
Qed.

Lemma selected_jump_ignores_disabled_config_witness :
  (jumpToNext_command (updateConfig two_patterns_store (mkConfig false false false))
     (str "a TODO") (mkPosition 0 0) = Some None
   /\ jumpToNextSelectedPatternOccurrence
        (updateConfig two_patterns_store (mkConfig false false false))
        (str "a TODO") (mkPosition 0 0)
      = navigateToNextPatternOccurrence
          (updateConfig two_patterns_store (mkConfig false false false))
          (str "a TODO") (mkPosition 0 0) (mkPattern (str "a") (str "TODO") 0 true 0 None))
  /\ jumpToNextSelectedPatternOccurrence
       (updateConfig two_patterns_store (mkConfig false false false))
       (str "a TODO") (mkPosition 0 0)
     = Some (Some (mkRange (mkPosition 0 2) (mkPosition 0 6))).
Proof.
  split; [|vm_compute; reflexivity].
  apply (selected_jump_ignores_disabled_config _ _ _ _
           [mkPattern (str "b") (str "FIXME") 1 true 0 None]); reflexivity.
Defined.

(** ** Decorations by colour *)

Lemma color_group_add (k c : Z) (rs : list range) (g : list (Z * list range)) :
  color_group k (add_to_color c rs g) =
  if c =? k then color_group k g ++ rs else color_group k g.
Proof.
  unfold color_group. induction g as [|(c', rs') g IH]; simpl.
  - destruct (c =? k); reflexivity.
  - destruct (Z.eqb_spec c' c) as [->|Hne]; simpl.
    + destruct (c =? k); reflexivity.
    + destruct (Z.eqb_spec c' k) as [->|Hk]; [|exact IH].
      destruct (Z.eqb_spec c k); [congruence|reflexivity].
Qed.

Lemma add_to_color_keys (c : Z) (rs : list range) (g : list (Z * list range)) (x : Z) :
  In x (map fst (add_to_color c rs g)) <-> c = x \/ In x (map fst g).
Proof.
  induction g as [|(c', rs') g IH]; simpl; [tauto|].
  destruct (Z.eqb_spec c' c) as [->|Hne]; simpl; [tauto|]. rewrite IH. tauto.
Qed.

Lemma add_to_color_nodup (c : Z) (rs : list range) (g : list (Z * list range)) :
  NoDup (map fst g) -> NoDup (map fst (add_to_color c rs g)).
Proof.
  induction g as [|(c', rs') g IH]; simpl; intros Hnd.
  - constructor; [tauto|constructor].
  - inversion Hnd as [|? ? Hn Hnd']; subst.
    destruct (Z.eqb_spec c' c) as [->|Hne]; simpl; [exact Hnd|].
    constructor; [|exact (IH Hnd')]. rewrite add_to_color_keys.
    intros [H|H]; [congruence|contradiction].
Qed.

Lemma add_to_color_nonempty (c : Z) (rs : list range) (g : list (Z * list range)) :
  rs <> [] -> Forall (fun e => snd e <> []) g ->
  Forall (fun e => snd e <> []) (add_to_color c rs g).
Proof.
  intros Hrs. induction g as [|(c', rs') g IH]; simpl; intros Hg.
  - constructor; [exact Hrs|constructor].
  - inversion Hg as [|? ? He Hg']; subst.
    destruct (c' =? c); constructor; auto.
    simpl. intros H. apply app_eq_nil in H as [_ H]. contradiction.
Qed.

Lemma group_ranges_spec (doc : jstr) (cf : PatternConfig) (ps : list Pattern) :
  forall acc g, group_ranges doc cf ps acc = Some g ->
  (NoDup (map fst acc) -> NoDup (map fst g))
  /\ (Forall (fun e => snd e <> []) acc -> Forall (fun e => snd e <> []) g)
  /\ forall k, exists rs,
       collect_ranges doc (filter (fun p => colorIndex p =? k) ps) cf = Some rs
       /\ color_group k g = color_group k acc ++ rs.
Proof.
  induction ps as [|p ps IH]; simpl; intros acc g.
  - intros [= <-]. split; [tauto|split; [tauto|]]. intros k. exists [].
    rewrite app_nil_r. split; reflexivity.
  - destruct (findPatternRanges doc p cf) as [[|r rs0]|] eqn:Ef; [| |discriminate].
    + intros Hg. destruct (IH acc g Hg) as (H1 & H2 & H3).
      split; [exact H1|split; [exact H2|]]. intros k.
      destruct (H3 k) as (rs & Hc & Hk). exists rs. split; [|exact Hk].
      destruct (colorIndex p =? k); [|exact Hc]. simpl. rewrite Ef, Hc. reflexivity.
    + intros Hg. destruct (IH _ g Hg) as (H1 & H2 & H3). split; [|split].
      * intros Hnd. apply H1, add_to_color_nodup, Hnd.
      * intros Hne. apply H2, add_to_color_nonempty; [discriminate|exact Hne].
      * intros k. destruct (H3 k) as (rs & Hc & Hk). rewrite color_group_add in Hk.
        destruct (colorIndex p =? k).
        -- exists ((r :: rs0) ++ rs). simpl. rewrite Ef, Hc. split; [reflexivity|].
           rewrite Hk, <- app_assoc. reflexivity.
        -- exists rs. split; [exact Hc|exact Hk].
Qed.

Lemma length_set_nth {A} (n : nat) (x : A) (l : list A) :
  length (set_nth n x l) = length l.
Proof.
  revert n. induction l as [|y l IH]; intros [|n]; simpl; auto.
Qed.

Lemma nth_set_nth {A} (n k : nat) (x d : A) (l : list A) :
  (k < length l)%nat ->
  nth k (set_nth n x l) d = if (n =? k)%nat then x else nth k l d.
Proof.
  revert n k. induction l as [|y l IH]; intros n k Hk; simpl in Hk; [lia|].
  destruct n as [|n], k as [|k]; simpl; try reflexivity.
  apply IH. lia.
Qed.

Lemma fold_apply_group (g : list (Z * list range)) :
  NoDup (map fst g) -> Forall (fun e => snd e <> []) g ->
  forall dec, length dec = 8%nat ->
  length (fold_left apply_group g dec) = 8%nat
  /\ forall k, (k < 8)%nat ->
       nth k (fold_left apply_group g dec) [] =
       match find (fun e => fst e =? Z.of_nat k) g with
       | Some e => snd e
       | None => nth k dec []
       end.
Proof.
  induction g as [|(c, rs) g IH]; intros Hnd Hne dec Hdec; cbn [fold_left find fst snd];
    [split; auto|].
  inversion Hnd as [|? ? Hc Hnd']; subst. inversion Hne as [|? ? Hrs Hne']; subst.
  simpl in Hrs.
  assert (Hlen : length (apply_group dec (c, rs)) = 8%nat).
  { unfold apply_group. destruct (_ && _ && _); [rewrite length_set_nth|]; exact Hdec. }
  destruct (IH Hnd' Hne' _ Hlen) as (IH1 & IH2). split; [exact IH1|].
  intros k Hk. rewrite (IH2 k Hk).
  destruct (Z.eqb_spec c (Z.of_nat k)) as [->|Hne_k].
  - rewrite find_all_false.
    2:{ apply Forall_forall. intros (c', rs') Hin. simpl.
        apply Z.eqb_neq. intros ->. apply Hc. apply (in_map fst _ _ Hin). }
    unfold apply_group.
    replace ((0 <=? Z.of_nat k) && (Z.of_nat k <? COLOR_PALETTE_length)
             && negb (match rs with [] => true | _ => false end)) with true.
    2:{ unfold COLOR_PALETTE_length. destruct rs; [contradiction|].
        symmetry. rewrite !andb_true_iff. rewrite Z.leb_le, Z.ltb_lt. simpl. lia. }
    rewrite nth_set_nth by lia. rewrite Nat2Z.id, Nat.eqb_refl. reflexivity.
  - destruct (find _ g); [reflexivity|].
    unfold apply_group. destruct (_ && _ && _) eqn:E; [|reflexivity].
    rewrite nth_set_nth by lia.
    destruct (Nat.eqb_spec (Z.to_nat c) k) as [Hck|]; [|reflexivity].
    apply andb_prop in E as [E _]. apply andb_prop in E as [E _].
    apply Z.leb_le in E. exfalso. apply Hne_k. rewrite <- Hck. lia.
Qed.

Lemma nth_cleared (k : nat) : nth k cleared [] = [].
Proof.
  unfold cleared. destruct (Nat.lt_ge_cases k (Z.to_nat COLOR_PALETTE_length)).
  - apply nth_repeat.
  - apply nth_overflow. rewrite repeat_length. exact H.
Qed.

Lemma updateEditor_colour_lists (st : PatternManager) (doc : jstr) (dec : list (list range)) :
  updateEditor true st doc = Some dec ->
  length dec = 8%nat
  /\ forall k, (k < 8)%nat ->
     collect_ranges doc
       (filter (fun p => colorIndex p =? Z.of_nat k) (getEnabledPatterns st))
       (config st) = Some (nth k dec []).
Proof.
  unfold updateEditor. cbn [negb].
  destruct (length (getEnabledPatterns st) =? 0)%nat eqn:E0.
  - apply Nat.eqb_eq, length_zero_iff_nil in E0. rewrite E0.
    intros [= <-]. split; [reflexivity|]. intros k _. rewrite nth_cleared. reflexivity.
  - destruct (group_ranges doc (config st) (getEnabledPatterns st) []) as [g|] eqn:Eg;
      [|discriminate].
    intros [= <-].
    destruct (group_ranges_spec _ _ _ _ _ Eg) as (H1 & H2 & H3).
    destruct (fold_apply_group g (H1 (NoDup_nil _)) (H2 (Forall_nil _)) cleared
                eq_refl) as (L & N).
    split; [exact L|]. intros k Hk. rewrite (N k Hk).
    destruct (H3 (Z.of_nat k)) as (rs & Hc & Hg). rewrite Hc. f_equal.
    unfold color_group in Hg. simpl in Hg.
    destruct (find _ g); [exact (eq_sym Hg)|]. rewrite nth_cleared. exact (eq_sym Hg).
Qed.




Lemma insert_range_perm (x : range) (l : list range) :
  Permutation (x :: l) (insert_range x l).
Proof.
  induction l as [|y l IH]; simpl; [reflexivity|].
  destruct (start_before x y); [reflexivity|].
  transitivity (y :: x :: l); [apply perm_swap|]. apply perm_skip. exact IH.
Qed.

Lemma sort_ranges_perm (l : list range) : Permutation l (sort_ranges l).
Proof.
  unfold sort_ranges.
  assert (H : forall acc, Permutation (acc ++ l)
                (fold_left (fun acc x => insert_range x acc) l acc)).
  { induction l as [|a l IH]; intros acc; simpl; [rewrite app_nil_r; reflexivity|].
    rewrite <- IH. rewrite <- Permutation_middle.
    apply (Permutation_app_tail l (insert_range_perm a acc)). }
  exact (H []).
Qed.

Lemma seq_as_map {A} (l : list A) (d : A) :
  l = map (fun k => nth k l d) (seq 0 (length l)).
Proof.
  induction l as [|a l IH]; [reflexivity|]. cbn [length seq map nth].
  f_equal. rewrite <- seq_shift, map_map. exact IH.
Qed.

Lemma Forall_filter_of {A} (P : A -> Prop) (f : A -> bool) (l : list A) :
  Forall P l -> Forall P (filter f l).
Proof.
  intros H. apply Forall_forall. intros x Hx. apply filter_In in Hx as [Hx _].
  exact (proj1 (Forall_forall _ _) H x Hx).
Qed.

Lemma collect_ranges_total (doc : jstr) (c : PatternConfig) (ps : list Pattern) :
  Forall (fun p => findPatternRanges doc p c <> None) ps ->
  collect_ranges doc ps c = Some (flat_map (ranges_or_nil doc c) ps).
Proof.
  induction 1 as [|p ps Hp _ IH]; [reflexivity|]. simpl. rewrite IH.
  destruct (findPatternRanges doc p c) as [r|] eqn:Ef; [|contradiction].
  replace (ranges_or_nil doc c p) with r by (unfold ranges_or_nil; rewrite Ef; reflexivity).
  reflexivity.
Qed.

Lemma collect_ranges_some (doc : jstr) (c : PatternConfig) (ps : list Pattern) all :
  collect_ranges doc ps c = Some all ->
  Forall (fun p => findPatternRanges doc p c <> None) ps
  /\ all = flat_map (ranges_or_nil doc c) ps.
Proof.
  revert all. induction ps as [|p ps IH]; simpl; intros all.
  - intros [= <-]. split; [constructor|reflexivity].
  - destruct (findPatternRanges doc p c) as [r|] eqn:Ef; [|discriminate].
    destruct (collect_ranges doc ps c) as [rs|]; [|discriminate].
    intros [= <-]. destruct (IH rs eq_refl) as (Hf & ->).
    split; [constructor; [congruence|exact Hf]|]. cbn [flat_map].
    replace (ranges_or_nil doc c p) with r by (unfold ranges_or_nil; rewrite Ef; reflexivity).
    reflexivity.
Qed.

Lemma concat_map_nil {A B} (ks : list A) :
  concat (map (fun _ => @nil B) ks) = [].
Proof. induction ks; simpl; auto. Qed.

Lemma concat_one_key (F : nat -> list range) (r : list range) (b : nat -> bool)
    (k0 : nat) (ks : list nat) :
  NoDup ks -> In k0 ks -> (forall k, b k = true <-> k = k0) ->
  Permutation (concat (map (fun k => if b k then r ++ F k else F k) ks))
              (r ++ concat (map F ks)).
Proof.
  intros Hnd Hin Hb. induction Hnd as [|k ks Hk Hnd IH]; [contradiction|].
  cbn [map concat]. destruct (b k) eqn:E.
  - apply Hb in E. subst k.
    rewrite (map_ext_in (fun k => if b k then r ++ F k else F k) F ks).
    + rewrite app_assoc. reflexivity.
    + intros k Hk'. destruct (b k) eqn:E'; [|reflexivity].
      apply Hb in E'. subst k. contradiction.
  - destruct Hin as [->|Hin].
    + assert (b k0 = true) by (apply Hb; reflexivity). congruence.
    + rewrite (IH Hin). apply Permutation_app_swap_app.
Qed.

Lemma flat_map_by_colour (G : Pattern -> list range) (ps : list Pattern) (ks : list nat) :
  NoDup ks ->
  Forall (fun p => exists k, In k ks /\ colorIndex p = Z.of_nat k) ps ->
  Permutation (flat_map G ps)
    (concat (map (fun k => flat_map G (filter (fun p => colorIndex p =? Z.of_nat k) ps)) ks)).
Proof.
  intros Hnd. induction 1 as [|p ps (k0 & Hk0 & Hc) _ IH].
  - simpl. rewrite concat_map_nil. reflexivity.
  - cbn [flat_map filter].
    rewrite (map_ext (fun k => flat_map G (if colorIndex p =? Z.of_nat k
                                           then p :: filter (fun p => colorIndex p =? Z.of_nat k) ps
                                           else filter (fun p => colorIndex p =? Z.of_nat k) ps))
                     (fun k => if colorIndex p =? Z.of_nat k
                               then G p ++ flat_map G (filter (fun p => colorIndex p =? Z.of_nat k) ps)
                               else flat_map G (filter (fun p => colorIndex p =? Z.of_nat k) ps)))
      by (intros k; destruct (colorIndex p =? Z.of_nat k); reflexivity).
    rewrite (concat_one_key _ (G p) (fun k => colorIndex p =? Z.of_nat k) k0 ks Hnd Hk0).
    + apply Permutation_app_head. exact IH.
    + intros k. rewrite Z.eqb_eq, Hc.
      split; [intros H; symmetry; apply Nat2Z.inj; exact H|intros ->; reflexivity].
Qed.

Lemma decorations_are_enabled_ranges (st : PatternManager) (doc : jstr)
    (dec : list (list range)) :
  colours_in_palette st -> updateEditor true st doc = Some dec ->
  Forall (fun p => findPatternRanges doc p (config st) <> None) (getEnabledPatterns st)
  /\ Permutation (flat_map (ranges_or_nil doc (config st)) (getEnabledPatterns st))
                 (concat dec).
Proof.
  intros Hpal Hd.
  destruct (updateEditor_colour_lists st doc dec Hd) as (L & N).
  assert (Hcol : Forall (fun p => exists k, In k (seq 0 8) /\ colorIndex p = Z.of_nat k)
                        (getEnabledPatterns st)).
  { apply Forall_forall. intros p Hp. unfold getEnabledPatterns in Hp.
    apply filter_In in Hp as [Hp _].
    pose proof (proj1 (Forall_forall _ _) Hpal p Hp) as Hc.
    unfold COLOR_PALETTE_length in Hc.
    exists (Z.to_nat (colorIndex p)). split; [apply in_seq; lia|lia]. }
  assert (Hfin : Forall (fun p => findPatternRanges doc p (config st) <> None)
                        (getEnabledPatterns st)).
  { apply Forall_forall. intros p Hp.
    destruct (proj1 (Forall_forall _ _) Hcol p Hp) as (k & Hk & Hc).
    apply in_seq in Hk. destruct (collect_ranges_some _ _ _ _ (N k ltac:(lia))) as (Hf & _).
    apply (proj1 (Forall_forall _ _) Hf). apply filter_In. split; [exact Hp|].
    apply Z.eqb_eq. exact Hc. }
  split; [exact Hfin|].
  rewrite (seq_as_map dec []), L.
  rewrite (map_ext_in (fun k => nth k dec [])
             (fun k => flat_map (ranges_or_nil doc (config st))
                         (filter (fun p => colorIndex p =? Z.of_nat k) (getEnabledPatterns st)))).
  - apply flat_map_by_colour; [apply seq_NoDup|exact Hcol].
  - intros k Hk. apply in_seq in Hk.
    specialize (N k ltac:(lia)).
    rewrite collect_ranges_total in N by (apply Forall_filter_of; exact Hfin).
    injection N as N. exact (eq_sym N).
Qed.

(** X14: when highlighting is enabled and every colour index is in the
    palette, the candidates of the global jump commands
    ([getHighlightRanges]) are exactly the ranges [updateEditor] displays,
    counted with multiplicity: the two lists are permutations of each
    other. *)
Theorem jump_candidates_are_decorations (st : PatternManager) (doc : jstr)
    (hs : list range) (dec : list (list range)) :
  cfg_enabled (config st) = true -> colours_in_palette st ->
  getHighlightRanges st doc = Some hs -> updateEditor true st doc = Some dec ->
  Permutation hs (concat dec).
Proof.
  intros Hen Hpal Hh Hd.
  destruct (decorations_are_enabled_ranges st doc dec Hpal Hd) as (_ & Hp).
  unfold getHighlightRanges in Hh. rewrite Hen in Hh. cbn [negb] in Hh.
  destruct (collect_ranges doc (getEnabledPatterns st) (config st)) as [all|] eqn:Ec;
    [|discriminate].
  injection Hh as <-.
  destruct (collect_ranges_some _ _ _ _ Ec) as (_ & ->).
  rewrite <- sort_ranges_perm. exact Hp.
Qed.

Lemma jump_candidates_are_decorations_witness :
  Permutation
    (match getHighlightRanges (updateConfig two_patterns_store (cfg false false))
             (str "TODO FIXME todo") with Some hs => hs | None => [] end)
    (concat (match updateEditor true (updateConfig two_patterns_store (cfg false false))
                    (str "TODO FIXME todo") with Some d => d | None => [] end)).
Proof.
  apply (jump_candidates_are_decorations
           (updateConfig two_patterns_store (cfg false false)) (str "TODO FIXME todo")).
  - reflexivity.
  - constructor; [unfold COLOR_PALETTE_length; simpl; lia|].
    constructor; [unfold COLOR_PALETTE_length; simpl; lia|constructor].
  - vm_compute. reflexivity.
  - vm_compute. reflexivity.
Defined.

(** ** Statistics *)

Lemma count_ranges_total (doc : jstr) (c : PatternConfig) (ps : list Pattern) :
  Forall (fun p => findPatternRanges doc p c <> None) ps ->
  count_ranges doc c ps = Some (length (flat_map (ranges_or_nil doc c) ps)).
Proof.
  induction 1 as [|p ps Hp _ IH]; [reflexivity|]. simpl. rewrite IH.
  destruct (findPatternRanges doc p c) as [r|] eqn:Ef; [|contradiction].
  replace (ranges_or_nil doc c p) with r by (unfold ranges_or_nil; rewrite Ef; reflexivity).
  simpl. rewrite length_app. reflexivity.
Qed.

(** X15: when every colour index is in the palette, the [activeDecorations]
    count of [getStats] is the total number of decorations [updateEditor]
    shows in the visible editors with highlighting on, and the other two
    counts are the numbers of stored and of enabled patterns. [getStats]
    reads neither the manager's [isEnabled] flag nor [config.enabled], so
    it reports that count also while highlighting is off. *)
Theorem getStats_counts_shown_decorations (st : PatternManager) (docs : list jstr)
    (decs : list (list (list range))) :
  colours_in_palette st ->
  Forall2 (fun doc dec => updateEditor true st doc = Some dec) docs decs ->
  getStats st docs =
  Some (length (patterns st), length (getEnabledPatterns st),
        list_sum (map (fun dec => length (concat dec)) decs)).
Proof.
  intros Hpal Hall. unfold getStats.
  enough (H : count_editors docs (config st) (getEnabledPatterns st)
              = Some (list_sum (map (fun dec => length (concat dec)) decs)))
    by (rewrite H; reflexivity).
  induction Hall as [|doc dec docs decs Hd _ IH]; [reflexivity|].
  destruct (decorations_are_enabled_ranges st doc dec Hpal Hd) as (Hf & Hp).
  simpl. rewrite (count_ranges_total _ _ _ Hf), IH. simpl.
  rewrite (Permutation_length Hp). reflexivity.
Qed.

Lemma getStats_counts_shown_decorations_witness :
  getStats two_patterns_store [str "TODO FIXME"; str "todo todo"]
  = Some (length (patterns two_patterns_store),
          length (getEnabledPatterns two_patterns_store),
          list_sum (map (fun dec => length (concat dec))
             (map (fun d => match updateEditor true two_patterns_store d with
                            | Some x => x | None => [] end)
                  [str "TODO FIXME"; str "todo todo"])))
  /\ getStats two_patterns_store [str "TODO FIXME"; str "todo todo"] = Some (2, 2, 4)%nat.
Proof.
  split; [|vm_compute; reflexivity].
  apply getStats_counts_shown_decorations.
  - constructor; [unfold COLOR_PALETTE_length; simpl; lia|].
    constructor; [unfold COLOR_PALETTE_length; simpl; lia|constructor].
  - constructor; [vm_compute; reflexivity|].
    constructor; [vm_compute; reflexivity|constructor].
Defined.

(** ** The pattern tree *)

Lemma tree_cmp_lt (x y : Pattern) : (tree_cmp x y <? 0) = true -> tree_order x y.
Proof.
  unfold tree_cmp, tree_order. rewrite Z.ltb_lt.
  destruct (enabled x), (enabled y); simpl; intros H.
  - split; [left; reflexivity|intros _; lia].
  - split; [left; reflexivity|discriminate].
  - exfalso; lia.
  - split; [right; reflexivity|intros _; lia].
Qed.

Lemma tree_cmp_ge (x y : Pattern) : (tree_cmp x y <? 0) = false -> tree_order y x.
Proof.
  unfold tree_cmp, tree_order. rewrite Z.ltb_ge.
  destruct (enabled x), (enabled y); simpl; intros H.
  - split; [left; reflexivity|intros _; lia].
  - exfalso; lia.
  - split; [left; reflexivity|discriminate].
  - split; [right; reflexivity|intros _; lia].
Qed.

Lemma tree_order_trans (a b c : Pattern) :
  tree_order a b -> tree_order b c -> tree_order a c.
Proof.
  unfold tree_order.
  destruct (enabled a), (enabled b), (enabled c); intros (H1 & H2) (H3 & H4);
    (split; [tauto|]); try discriminate; intros _;
    try (specialize (H2 eq_refl); specialize (H4 eq_refl); lia);
    destruct H1; destruct H3; discriminate.
Qed.

Lemma insert_tree_sorted (x : Pattern) (l : list Pattern) :
  Sorted tree_order l -> Sorted tree_order (insert_tree x l).
Proof.
  induction 1 as [|y l Hs IH Hhd]; simpl; [repeat constructor|].
  destruct (tree_cmp x y <? 0) eqn:Hxy.
  - constructor; [constructor; assumption|].
    constructor. apply tree_cmp_lt. exact Hxy.
  - constructor; [assumption|].
    destruct l as [|z l]; simpl.
    + constructor. apply tree_cmp_ge. exact Hxy.
    + inversion Hhd; subst.
      destruct (tree_cmp x z <? 0); constructor; [apply tree_cmp_ge; exact Hxy|assumption].
Qed.

Lemma sort_tree_sorted (l : list Pattern) : Sorted tree_order (sort_tree l).
Proof.
  unfold sort_tree.
  assert (H : forall acc, Sorted tree_order acc ->
              Sorted tree_order (fold_left (fun acc x => insert_tree x acc) l acc)).
  { induction l as [|x l IH]; intros acc Hacc; simpl; [assumption|].
    apply IH, insert_tree_sorted; assumption. }
  apply H. constructor.
Qed.

Lemma insert_tree_perm (x : Pattern) (l : list Pattern) :
  Permutation (x :: l) (insert_tree x l).
Proof.
  induction l as [|y l IH]; simpl; [reflexivity|].
  destruct (tree_cmp x y <? 0); [reflexivity|].
  transitivity (y :: x :: l); [apply perm_swap|]. apply perm_skip. exact IH.
Qed.

Lemma sort_tree_perm (l : list Pattern) : Permutation l (sort_tree l).
Proof.
  unfold sort_tree.
  assert (H : forall acc, Permutation (acc ++ l)
                (fold_left (fun acc x => insert_tree x acc) l acc)).
  { induction l as [|a l IH]; intros acc; simpl; [rewrite app_nil_r; reflexivity|].
    rewrite <- IH. rewrite <- Permutation_middle.
    apply (Permutation_app_tail l (insert_tree_perm a acc)). }
  exact (H []).
Qed.

Lemma tree_cmp_strict_trans (x y z : Pattern) :
  (tree_cmp x y <? 0) = true -> tree_order y z -> (tree_cmp x z <? 0) = true.
Proof.
  unfold tree_cmp, tree_order. rewrite !Z.ltb_lt.
  destruct (enabled x), (enabled y), (enabled z); simpl; intros H (H1 & H2);
    try lia; try (specialize (H2 eq_refl); lia);
    destruct H1; discriminate.
Qed.

Lemma tree_cmp_same_key (p x z : Pattern) :
  same_tree_key p x = true -> same_tree_key p z = true -> tree_cmp x z = 0.
Proof.
  unfold same_tree_key, tree_cmp. rewrite !andb_true_iff, !Z.eqb_eq.
  intros (Ex & Cx) (Ez & Cz). apply Bool.eqb_prop in Ex, Ez.
  rewrite <- Ex, <- Ez, Bool.eqb_reflx. simpl. lia.
Qed.

Lemma filter_all_false {A} (f : A -> bool) (l : list A) :
  (forall z, In z l -> f z = false) -> filter f l = [].
Proof.
  induction l as [|a l IH]; simpl; intros H; [reflexivity|].
  rewrite (H a (or_introl eq_refl)). apply IH. intros z Hz. apply H. right. exact Hz.
Qed.

Lemma insert_tree_filter (p x : Pattern) (l : list Pattern) :
  StronglySorted tree_order l ->
  filter (same_tree_key p) (insert_tree x l)
  = filter (same_tree_key p) l ++ filter (same_tree_key p) [x].
Proof.
  induction 1 as [|y l Hss IH Hall]; [reflexivity|].
  cbn [insert_tree]. destruct (tree_cmp x y <? 0) eqn:Exy.
  - change (filter (same_tree_key p) (x :: y :: l))
      with (if same_tree_key p x then x :: filter (same_tree_key p) (y :: l)
            else filter (same_tree_key p) (y :: l)).
    change (filter (same_tree_key p) [x]) with (if same_tree_key p x then [x] else []).
    destruct (same_tree_key p x) eqn:Ex; [|rewrite app_nil_r; reflexivity].
    rewrite (filter_all_false _ (y :: l)); [reflexivity|].
    intros z Hz. destruct (same_tree_key p z) eqn:Ez; [|reflexivity]. exfalso.
    assert (Hxz : (tree_cmp x z <? 0) = true).
    { destruct Hz as [<-|Hz]; [exact Exy|].
      apply (tree_cmp_strict_trans x y z Exy).
      exact (proj1 (Forall_forall _ _) Hall z Hz). }
    rewrite (tree_cmp_same_key p x z Ex Ez) in Hxz. discriminate.
  - cbn [filter]. rewrite IH. destruct (same_tree_key p y); reflexivity.
Qed.

Lemma sort_tree_filter (p : Pattern) (l : list Pattern) :
  filter (same_tree_key p) (sort_tree l) = filter (same_tree_key p) l.
Proof.
  unfold sort_tree.
  assert (H : forall acc, Sorted tree_order acc ->
              filter (same_tree_key p) (fold_left (fun acc x => insert_tree x acc) l acc)
              = filter (same_tree_key p) acc ++ filter (same_tree_key p) l).
  { induction l as [|a l IH]; intros acc Hacc; simpl; [rewrite app_nil_r; reflexivity|].
    rewrite IH by (apply insert_tree_sorted; exact Hacc).
    rewrite insert_tree_filter
      by (apply Sorted_StronglySorted; [exact tree_order_trans|exact Hacc]).
    cbn [filter]. destruct (same_tree_key p a); rewrite <- app_assoc; reflexivity. }
  apply H. constructor.
Qed.

Lemma map_items_ids (g : bool) (ps : list Pattern) (its : list tree_item) :
  map_items g ps = Some its -> map item_id (filter is_pattern_item its) = map id ps.
Proof.
  revert its. induction ps as [|p ps IH]; simpl; intros its.
  - intros [= <-]. reflexivity.
  - destruct (createTreeItem p g) as [it|] eqn:E; [|discriminate].
    destruct (map_items g ps) as [its'|]; [|discriminate]. intros [= <-].
    unfold createTreeItem in E. destruct (palette_name (colorIndex p)); [|discriminate].
    injection E as <-. cbn [filter]. unfold is_pattern_item at 1. cbn [item_contextValue].
    rewrite jstr_eqb_refl. cbn [map item_id]. f_equal. apply IH. reflexivity.
Qed.

(** X16: the tree lists the patterns enabled first, then by ascending
    creation time: its pattern items are those of a permutation of the
    store in that order, and patterns with the same status and creation
    time (imports stamped with the same time) keep their store order. The
    inline-add and colour-picker items placed before them are not pattern
    items. *)
Theorem tree_lists_enabled_first_by_creation (isInlineAdding : bool)
    (colorSelectionPatternId : option jstr) (st : PatternManager) :
  Permutation (patterns st) (sort_tree (patterns st))
  /\ StronglySorted tree_order (sort_tree (patterns st))
  /\ (forall p, filter (same_tree_key p) (sort_tree (patterns st))
                = filter (same_tree_key p) (patterns st))
  /\ (forall items, getPatternItems isInlineAdding colorSelectionPatternId st = Some items ->
        patterns st <> [] ->
        map item_id (filter is_pattern_item items) = map id (sort_tree (patterns st))).
Proof.
  split; [apply sort_tree_perm|split; [|split]].
  - apply Sorted_StronglySorted; [exact tree_order_trans|apply sort_tree_sorted].
  - intros p. apply sort_tree_filter.
  - intros items H Hne. unfold getPatternItems in H.
    replace (length (patterns st) =? 0)%nat with false in H
      by (symmetry; apply Nat.eqb_neq; intros E; apply Hne, length_zero_iff_nil, E).
    cbn [andb] in H.
    destruct (map_items (cfg_enabled (config st)) (sort_tree (patterns st))) as [its|] eqn:Em;
      [|discriminate].
    injection H as <-. rewrite filter_app, map_app, (map_items_ids _ _ _ Em).
    destruct isInlineAdding, colorSelectionPatternId as [x|];
      try (destruct (jstr_eqb x []); [|destruct (find _ _)]); reflexivity.
Qed.

Lemma getColorIcon_length (c : Z) : (1 <= length (getColorIcon c) <= 2)%nat.
Proof.
  unfold getColorIcon. destruct (0 <=? c); [|simpl; lia].
  destruct (nth_error color_icons (Z.to_nat c)) as [i|] eqn:E; [|simpl; lia].
  apply nth_error_In in E. simpl in E.
  repeat (destruct E as [<-|E]; [simpl; lia|]). contradiction.
Qed.

Lemma palette_name_none (c : Z) :
  palette_name c = None <-> ~ (0 <= c < COLOR_PALETTE_length).
Proof.
  unfold palette_name, COLOR_PALETTE_length. destruct (Z.leb_spec 0 c).
  - rewrite nth_error_None. cbn [length palette_names]. lia.
  - split; [intros _; lia|reflexivity].
Qed.

(** X17: building a tree item fails (reading [.name] of an undefined palette
    entry throws) exactly when the colour index is outside the palette;
    otherwise the label is at most 30 UTF-16 code units, and a text of at
    most 27 code units is shown in full after the colour icon and a space. *)
Theorem createTreeItem_label_fits (p : Pattern) (globalEnabled : bool) :
  (createTreeItem p globalEnabled = None <-> ~ (0 <= colorIndex p < COLOR_PALETTE_length))
  /\ forall it, createTreeItem p globalEnabled = Some it ->
     (length (item_label it) <= 30)%nat
     /\ ((length (text p) <= 27)%nat ->
         item_label it = getColorIcon (colorIndex p) ++ [32] ++ text p).
Proof.
  unfold createTreeItem. split.
  - rewrite <- palette_name_none.
    destruct (palette_name (colorIndex p)); split; congruence.
  - intros it. destruct (palette_name (colorIndex p)); [|discriminate]. cbv zeta.
    pose proof (getColorIcon_length (colorIndex p)) as Hicon.
    destruct (Nat.ltb 30 (length (getColorIcon (colorIndex p) ++ [32] ++ text p))) eqn:E;
      intros H; apply (f_equal (fun o => match o with Some i => item_label i | None => [] end)) in H;
      cbv beta iota in H; rewrite <- H; cbn [item_label].
    + apply Nat.ltb_lt in E. rewrite !length_app in *. cbn [length] in *.
      assert (length (firstn 22 (text p)) <= 22)%nat by apply firstn_le_length.
      change (length (str "...")) with 3%nat.
      split; [lia|intros; lia].
    + apply Nat.ltb_ge in E. split; [exact E|intros _; reflexivity].
Qed.

(** ** Lengths of the texts the add commands create *)

Lemma length_drop_spaces_le (s : jstr) : (length (drop_spaces s) <= length s)%nat.
Proof.
  destruct (drop_spaces_suffix s) as [pre Hpre].
  rewrite Hpre at 2. rewrite length_app. lia.
Qed.

Lemma length_trim_le (s : jstr) : (length (trim s) <= length s)%nat.
Proof.
  unfold trim. rewrite length_rev.
  pose proof (length_drop_spaces_le (rev (drop_spaces s))).
  pose proof (length_drop_spaces_le s). rewrite length_rev in *. lia.
Qed.

(** A text that [addPattern] newly brings into the store is the trimmed
    argument. *)
Lemma addPattern_new_text (st : PatternManager) i n t d u :
  In u (map text (patterns (fst (addPattern st i n t d)))) ->
  ~ In u (map text (patterns st)) -> u = trim t.
Proof.
  intros Hin Hn. destruct (addPattern_result st i n t d) as [E|(_ & _ & _ & E)];
    rewrite E in Hin; cbn [fst patterns] in Hin; [contradiction|].
  rewrite map_app in Hin. apply in_app_or in Hin as [Hin|[Hin|[]]];
    [contradiction|symmetry; exact Hin].
Qed.

Lemma find_none_of_existsb {A} (f : A -> bool) (l : list A) :
  existsb f l = false -> find f l = None.
Proof.
  intros H. destruct (find f l) as [e|] eqn:E; [|reflexivity].
  apply find_some in E as [Hin Hf].
  assert (existsb f l = true) by (apply existsb_exists; exists e; auto). congruence.
Qed.

(** X18: a text the inline add (or the inline input box with an accepted
    value) brings into the store is trimmed and has 2 to 100 UTF-16 code
    units; a text added from a selection is trimmed and has 1 to 100, and a
    single non-blank character selected is indeed added when there is room and
    no case-insensitive duplicate. *)
Theorem add_paths_text_lengths :
  (forall st newId now t d u,
     In u (map text (patterns (createPatternFromInline st newId now t d))) ->
     ~ In u (map text (patterns st)) ->
     trim u = u /\ (2 <= length u <= 100)%nat)
  /\ (forall st v newId now u,
     validateInput (patterns st) None v = None ->
     In u (map text (patterns (showInlineInputBox st None (Some v) newId now))) ->
     ~ In u (map text (patterns st)) ->
     trim u = u /\ (2 <= length u <= 100)%nat)
  /\ (forall st sel tog ch newId now u,
     In u (map text (patterns (addPatternFromSelection st sel tog ch newId now))) ->
     ~ In u (map text (patterns st)) ->
     trim u = u /\ (1 <= length u <= 100)%nat)
  /\ (forall st c tog newId now,
     is_js_space c = false ->
     (length (patterns st) < MAX_PATTERNS)%nat ->
     existsb (same_text_ci [c]) (patterns st) = false ->
     map text (patterns (addPatternFromSelection st [c] tog SelCreate newId now))
     = map text (patterns st) ++ [[c]]).
Proof.
  split; [|split; [|split]].
  - intros st newId now t d u Hin Hn. unfold createPatternFromInline in Hin.
    destruct (MAX_PATTERNS <=? length (patterns st))%nat; [contradiction|].
    destruct (jstr_eqb (trim t) []); [contradiction|].
    destruct (Nat.ltb_spec (length (trim t)) 2); [contradiction|].
    destruct (existsb (same_text_ci (trim t)) (patterns st)); [contradiction|].
    destruct (Nat.ltb_spec 100 (length (trim t))); [contradiction|].
    apply addPattern_new_text in Hin; [|exact Hn].
    rewrite trim_idem in Hin. subst u. rewrite trim_idem. split; [reflexivity|lia].
  - intros st v newId now u Hv Hin Hn. unfold showInlineInputBox in Hin.
    destruct (jstr_eqb v []); [contradiction|].
    apply addPattern_new_text in Hin; [|exact Hn].
    rewrite trim_idem in Hin. subst u. rewrite trim_idem.
    unfold validateInput in Hv.
    destruct (jstr_eqb (trim v) []); [discriminate|].
    destruct (Nat.ltb_spec (length (trim v)) 2); [discriminate|].
    destruct (existsb _ (patterns st)); [discriminate|].
    destruct (Nat.ltb_spec 100 (length v)); [discriminate|].
    pose proof (length_trim_le v). split; [reflexivity|lia].
  - intros st sel tog ch newId now u Hin Hn. unfold addPatternFromSelection in Hin.
    destruct (jstr_eqb (trim sel) []) eqn:Ee; [contradiction|].
    apply jstr_eqb_false in Ee.
    destruct (Nat.ltb_spec 100 (length (trim sel))); [contradiction|].
    destruct (find (same_text_ci (trim sel)) (patterns st)) as [e|].
    + destruct tog; [|contradiction].
      rewrite togglePattern_texts in Hin. contradiction.
    + destruct (MAX_PATTERNS <=? length (patterns st))%nat; [contradiction|].
      assert (Hsel : (1 <= length (trim sel) <= 100)%nat)
        by (destruct (trim sel); [congruence|cbn [length] in *; lia]).
      destruct ch as [| |dd]; [contradiction| |].
      * apply addPattern_new_text in Hin; [|exact Hn].
        rewrite trim_idem in Hin. subst u. rewrite trim_idem. split; [reflexivity|exact Hsel].
      * apply addPattern_new_text in Hin; [|exact Hn].
        rewrite trim_idem in Hin. subst u. rewrite trim_idem. split; [reflexivity|exact Hsel].
  - intros st c tog newId now Hc Hlen Hex.
    assert (Ht : trim [c] = [c]) by (unfold trim; cbn [drop_spaces]; rewrite Hc; cbn [rev app drop_spaces]; rewrite Hc; reflexivity).
    unfold addPatternFromSelection. rewrite Ht. cbn [jstr_eqb].
    change (jstr_eqb [c] []) with false. change (100 <? length [c])%nat with false.
    rewrite (find_none_of_existsb _ _ Hex).
    assert (Hm : (MAX_PATTERNS <=? length (patterns st))%nat = false) by (apply Nat.leb_gt; exact Hlen).
    rewrite Hm.
    destruct (addPattern_result st newId now [c] None) as [E|(_ & Hne & _ & E)].
    + unfold addPattern in E. rewrite Hm, Ht, Hex in E.
      change (jstr_eqb [c] []) with false in E.
      destruct (getNextColorIndex (patterns st) (lastColorIndex st)).
      injection E as E. apply (f_equal (fun s => length (patterns s))) in E. cbn [patterns] in E.
      rewrite length_app in E. cbn [length] in E. lia.
    + rewrite E. cbn [fst patterns]. rewrite map_app, Ht. reflexivity.
Qed.

Lemma add_paths_text_lengths_witness :
  map text (patterns (addPatternFromSelection two_patterns_store (str "x") false SelCreate
                        (str "n") 5))
  = map text (patterns two_patterns_store) ++ [str "x"].
Proof.
  apply (proj2 (proj2 (proj2 add_paths_text_lengths))); vm_compute; first [reflexivity | lia].
Defined.
